(** * 3JS-Model-Loader: the model presentation state machine

    A shallow embedding of [src/modelClass.js] (class [Model] and the
    [VISTAS] table) together with the part of the scene engine
    ([three.module.js]) that the class calls into, followed by the
    properties of the presentation-mode tracker and of the orientation
    controller.

    JavaScript numbers are IEEE-754 binary64 values; they are embedded as
    Rocq's primitive floats, so [0.4], [Math.PI / 180] and the vista angles
    are the very values the program computes with. The quaternion the
    engine derives from the rotation calls is stated in exact (real)
    arithmetic. *)

From Stdlib Require Import Floats.PrimFloat.
From Stdlib Require Import Floats.SpecFloat.
From Stdlib Require Import Floats.FloatOps.
From Stdlib Require Import Floats.FloatAxioms.
From Stdlib Require Import Strings.String.
From Stdlib Require Import Lists.List.
From Stdlib Require Import Bool.Bool.
From Stdlib Require Import Arith.PeanoNat.
From Stdlib Require Import NArith.BinNat.
From Stdlib Require Import ZArith.
From Stdlib Require Import Reals.
From Stdlib Require Import Lra.
From Stdlib Require Import Lia.
Import ListNotations.

#[local] Set Warnings "-inexact-float".

(* ================================================================= *)
(** ** A small error monad for traversals that may run out of fuel *)

Definition bind {A B : Type} (m : option A) (k : A -> option B) : option B :=
  match m with
  | Some a => k a
  | None => None
  end.

Notation "x <- m ;; k" := (bind m (fun x => k))
  (at level 61, m at next level, right associativity).

Fixpoint mapM {A B : Type} (f : A -> option B) (l : list A) : option (list B) :=
  match l with
  | [] => Some []
  | a :: l' =>
      b <- f a ;;
      bs <- mapM f l' ;;
      Some (b :: bs)
  end.

(* ================================================================= *)
(** ** The scene engine *)

(** [THREE.Vector3]: three JavaScript numbers. *)
Record Vector3 : Type := mkVector3 { x : float; y : float; z : float }.

(** Modelled from the spec: [Vector3.addVectors] of the scene engine
    ([three.module.js] is not among the sources): the component-wise sum. *)
Definition addVectors (a b : Vector3) : Vector3 :=
  mkVector3 (x a + x b)%float (y a + y b)%float (z a + z b)%float.

(** A camera, as far as [Model] reads it: [camera.position]. *)
Record Camera : Type := mkCamera { cameraPosition : Vector3 }.

(** Geometry handles: a buffer loaded from the asset, or the wireframe
    the engine derives from another geometry
    ([new THREE.WireframeGeometry(g)]). *)
Inductive Geometry : Type :=
| BufferGeometry (id : nat)
| WireframeGeometry (source : Geometry).

(** The material fields the class touches, and the colour the line
    material is constructed with. *)
Record Material : Type := mkMaterial {
  color : N;
  transparent : bool;
  opacity : float
}.

(** [new THREE.LineBasicMaterial({ color: c })]: the engine's defaults for
    the other two fields are [transparent = false], [opacity = 1]. *)
Definition LineBasicMaterial (c : N) : Material := mkMaterial c false 1%float.

(** [child.material] of a mesh: one material, or an array of materials
    (a mesh drawn in groups). An array is a JavaScript object as well: an
    assignment to [material.transparent] or [material.opacity] on it
    creates or overwrites a property of the array and reaches none of the
    materials it holds. *)
Inductive MeshMaterial : Type :=
| Single (material : Material)
| Multi (materials : list Material)
        (arrayTransparent : option bool) (arrayOpacity : option float).

Coercion Single : Material >-> MeshMaterial.

(** The closed set of node kinds: [child.isMesh] is a tag check. Only
    meshes and line segments carry geometry and material. *)
Inductive NodeKind : Type :=
| Plain
| Mesh (geometry : Geometry) (material : MeshMaterial)
| LineSegments (geometry : Geometry) (material : Material).

(** The transform calls the class issues on its root node: a node
    records, in order, the calls applied to it. What they do to the
    node's quaternion is [orientation], further down. *)
Inductive TransformCall : Type :=
| LookAt (target : Vector3)
| RotateOnAxis (axis : Vector3) (angle : float).

(** A scene-graph node ([THREE.Object3D] and its subclasses). The graph is
    a tree: the engine's [add] detaches a node from any former parent. *)
Local Unset Elimination Schemes.
Inductive Object3D : Type := mkObject3D {
  name : string;
  kind : NodeKind;
  position : Vector3;
  calls : list TransformCall;
  children : list Object3D
}.
Local Set Elimination Schemes.

(** The induction principle that reaches the children of a node. *)
Section Object3D_tree_induction.
Variable P : Object3D -> Prop.
Hypothesis P_node :
  forall n k p c cs, Forall P cs -> P (mkObject3D n k p c cs).

Fixpoint Object3D_tree_ind (o : Object3D) : P o :=
  match o with
  | mkObject3D n k p c cs =>
      P_node n k p c cs
        ((fix all (l : list Object3D) : Forall P l :=
            match l with
            | [] => Forall_nil P
            | a :: l' => Forall_cons a (Object3D_tree_ind a) (all l')
            end) cs)
  end.
End Object3D_tree_induction.

Definition isMesh (o : Object3D) : bool :=
  match kind o with
  | Mesh _ _ => true
  | _ => false
  end.

Definition setChildren (o : Object3D) (cs : list Object3D) : Object3D :=
  mkObject3D (name o) (kind o) (position o) (calls o) cs.

Definition setKind (o : Object3D) (k : NodeKind) : Object3D :=
  mkObject3D (name o) k (position o) (calls o) (children o).

Definition setName (o : Object3D) (n : string) : Object3D :=
  mkObject3D n (kind o) (position o) (calls o) (children o).

Definition pushCall (c : TransformCall) (o : Object3D) : Object3D :=
  mkObject3D (name o) (kind o) (position o) (calls o ++ [c]) (children o).

Definition origin : Vector3 := mkVector3 0 0 0.

(** [new THREE.Object3D()]: unnamed, no geometry, no children. *)
Definition newObject3D : Object3D := mkObject3D EmptyString Plain origin [] [].

(** [new THREE.LineSegments(geometry, material)]. *)
Definition newLineSegments (g : Geometry) (m : Material) : Object3D :=
  mkObject3D EmptyString (LineSegments g m) origin [] [].

(** Modelled from the spec: [Object3D.lookAt] of the scene engine
    ([three.module.js] is not among the sources), one of the
    position/rotation transform operations of the external interface; the
    call is recorded on the node it is made on. *)
Definition lookAt (target : Vector3) (o : Object3D) : Object3D :=
  pushCall (LookAt target) o.

(** Modelled from the spec: [Object3D.rotateOnAxis], as [lookAt] above;
    the engine takes the angle in radians. *)
Definition rotateOnAxis (axis : Vector3) (angle : float) (o : Object3D) : Object3D :=
  pushCall (RotateOnAxis axis angle) o.

(** Modelled from the spec: [Object3D.add] of the scene engine
    ([three.module.js] is not among the sources): the node becomes the
    last child. *)
Definition add (child : Object3D) (o : Object3D) : Object3D :=
  setChildren o (children o ++ [child]).

(** A reference to a node reached from a receiver: the child indices on
    the way down. [[]] is the receiver itself, [[i]] its [i]-th child. *)
Definition Ref : Type := list nat.

(** Modelled from the spec: [Object3D.getObjectByName] of the scene engine
    ([three.module.js] is not among the sources): the first node, in
    depth-first pre-order starting with the receiver itself, whose name is
    the one asked for; [undefined] ([None]) when there is none. *)
Fixpoint firstOf {A : Type} (find : A -> option Ref) (i : nat) (l : list A)
  : option Ref :=
  match l with
  | [] => None
  | c :: l' =>
      match find c with
      | Some r => Some (i :: r)
      | None => firstOf find (S i) l'
      end
  end.

Fixpoint getObjectByName (nm : string) (o : Object3D) : option Ref :=
  match o with
  | mkObject3D n _ _ _ cs =>
      if String.eqb n nm then Some []
      else firstOf (getObjectByName nm) 0 cs
  end.

Fixpoint removeNth {A : Type} (i : nat) (l : list A) : list A :=
  match l, i with
  | [], _ => []
  | _ :: l', O => l'
  | a :: l', S j => a :: removeNth j l'
  end.

(** Modelled from the spec: [Object3D.remove] of the scene engine
    ([three.module.js] is not among the sources): the argument is taken
    out of the receiver's children when it is one of them; anything else
    (the receiver itself, a deeper descendant, [undefined]) leaves the
    receiver as it is. *)
Definition remove (target : option Ref) (o : Object3D) : Object3D :=
  match target with
  | Some [i] => setChildren o (removeNth i (children o))
  | _ => o
  end.

(** Modelled from the spec: [Object3D.traverse] of the scene engine
    ([three.module.js] is not among the sources): the callback runs on the
    node, then the traversal descends into each child the node has after
    the callback ran. A callback may grow the tree below the node it
    visits, so the recursion takes fuel; [None] is running out of it. *)
Fixpoint traverse (fuel : nat) (callback : Object3D -> Object3D) (o : Object3D)
  : option Object3D :=
  match fuel with
  | O => None
  | S fuel' =>
      let o' := callback o in
      cs <- mapM (traverse fuel' callback) (children o') ;;
      Some (setChildren o' cs)
  end.

(** The number of levels of a tree: the fuel a traversal needs. *)
Fixpoint height (o : Object3D) : nat :=
  match o with
  | mkObject3D _ _ _ _ cs => S (list_max (map height cs))
  end.

(* ================================================================= *)
(** ** [src/modelClass.js] *)

(** [VISTAS]: the rotation angles of the standard views, in degrees. *)
Module VISTAS.
Definition FRONTAL : Vector3 := mkVector3 0 0 0.
Definition TRANSERA : Vector3 := mkVector3 90 90 0.
Definition IZQUIERO : Vector3 := mkVector3 90 90 90.
Definition DERECHA : Vector3 := mkVector3 180 180 180.
Definition ARRIBA : Vector3 := mkVector3 0 0 180.
Definition ABAJO : Vector3 := mkVector3 90 180 0.
Definition ISOMETRICA : Vector3 := mkVector3 30 30 0.
End VISTAS.

(** The object literal held in [_modo] and in [_modoOldState]. *)
Record Modo : Type := mkModo {
  sombreado : bool;
  alambre : bool;
  transperante : bool;
  bordes : bool
}.

(** The fields of a [Model] instance. *)
Record Model : Type := mkModel {
  _object : Object3D;
  _vista : Vector3;
  _modo : Modo;
  _modoOldState : Modo;
  _viewChange : bool
}.

(** [constructor ()]. *)
Definition newModel : Model :=
  mkModel newObject3D VISTAS.FRONTAL
          (mkModo true false false false)
          (mkModo true false false false)
          false.

(** [set object (obj)] and [get object ()]. *)
Definition set_object (obj : Object3D) (this : Model) : Model :=
  mkModel obj (_vista this) (_modo this) (_modoOldState this) (_viewChange this).

Definition get_object (this : Model) : Object3D := _object this.

(** [set vista (orientation)]. *)
Definition set_vista (orientation : Vector3) (this : Model) : Model :=
  mkModel (_object this) orientation (_modo this) (_modoOldState this) true.

(** [Math.PI], the binary64 value nearest to pi. *)
Definition Math_PI : float := 0x1.921fb54442d18p+1%float.

(** [_degreesToRadians (degrees)]. *)
Definition _degreesToRadians (degrees : float) : float :=
  let radians := (degrees * (Math_PI / 180))%float in
  radians.

(** [_updateRotation (camera)]. *)
Definition _updateRotation (camera : Camera) (this : Model) : Model :=
  if _viewChange this then
    let defaultDir := mkVector3 0 0 0 in
    let pos := addVectors defaultDir (position (_object this)) in
    let o1 := lookAt (cameraPosition camera) (_object this) in
    let worldAxisX := mkVector3 1 0 0 in
    let o2 := rotateOnAxis worldAxisX (x (_vista this)) o1 in
    let worldAxisY := mkVector3 0 1 0 in
    let o3 := rotateOnAxis worldAxisY (y (_vista this)) o2 in
    let worldAxisZ := mkVector3 0 0 1 in
    let o4 := rotateOnAxis worldAxisZ (z (_vista this)) o3 in
    mkModel o4 (_vista this) (_modo this) (_modoOldState this) false
  else this.

(** The mode setters and getters. *)
Definition set_alambre (boolean : bool) (this : Model) : Model :=
  mkModel (_object this) (_vista this)
          (mkModo (sombreado (_modo this)) boolean
                  (transperante (_modo this)) (bordes (_modo this)))
          (_modoOldState this) (_viewChange this).

Definition get_alambre (this : Model) : bool := alambre (_modo this).

Definition set_transparente (boolean : bool) (this : Model) : Model :=
  mkModel (_object this) (_vista this)
          (mkModo (sombreado (_modo this)) (alambre (_modo this))
                  boolean (bordes (_modo this)))
          (_modoOldState this) (_viewChange this).

Definition get_transparente (this : Model) : bool := transperante (_modo this).

Definition set_sombreado (boolean : bool) (this : Model) : Model :=
  mkModel (_object this) (_vista this)
          (mkModo boolean (alambre (_modo this))
                  (transperante (_modo this)) (bordes (_modo this)))
          (_modoOldState this) (_viewChange this).

Definition get_sombreado (this : Model) : bool := sombreado (_modo this).

(** Assignments to one field of [_modoOldState] and to [_object]. *)
Definition old_alambre (b : bool) (m : Modo) : Modo :=
  mkModo (sombreado m) b (transperante m) (bordes m).

Definition old_transperante (b : bool) (m : Modo) : Modo :=
  mkModo (sombreado m) (alambre m) b (bordes m).

Definition old_sombreado (b : bool) (m : Modo) : Modo :=
  mkModo b (alambre m) (transperante m) (bordes m).

Definition withObject (o : Object3D) (old : Modo) (this : Model) : Model :=
  mkModel o (_vista this) (_modo this) old (_viewChange this).

(** The callbacks handed to [traverse] in [_updateModo]. *)

(** Lines 176-186: the wireframe overlay of a mesh. *)
Definition addWireframe (child : Object3D) : Object3D :=
  match kind child with
  | Mesh geometry _ =>
      let wireframeGeometry := WireframeGeometry geometry in
      let wireframeMaterial := LineBasicMaterial 0xEFEFEF%N in
      let wireframe := newLineSegments wireframeGeometry wireframeMaterial in
      let wireframe := setName wireframe "wireframe" in
      add wireframe child
  | _ => child
  end.

(** Lines 188-192. *)
Definition removeWireframe (child : Object3D) : Object3D :=
  if isMesh child then remove (getObjectByName "wireframe" child) child
  else child.

(** The two assignments [material.transparent = t] and
    [material.opacity = op]: on one material they set its two fields; on
    an array of materials they set two properties of the array. *)
Definition assignMaterial (t : bool) (op : float) (material : MeshMaterial)
  : MeshMaterial :=
  match material with
  | Single m => Single (mkMaterial (color m) t op)
  | Multi ms _ _ => Multi ms (Some t) (Some op)
  end.

(** Lines 206-211, 213-218, 226-231 and 235-240: the two assignments to
    [child.material]. *)
Definition setMaterial (t : bool) (op : float) (child : Object3D) : Object3D :=
  match kind child with
  | Mesh geometry material =>
      setKind child (Mesh geometry (assignMaterial t op material))
  | _ => child
  end.

Definition neqb (a b : bool) : bool := negb (Bool.eqb a b).

(** [_updateModo (scene)], one definition for each of its three [if]
    statements, in the order of the source. *)

(** Lines 174-195. *)
Definition _updateModo_alambre (fuel : nat) (this : Model) : option Model :=
  if neqb (alambre (_modo this)) (alambre (_modoOldState this)) then
    o <- (if alambre (_modo this)
          then traverse fuel addWireframe (_object this)
          else traverse fuel removeWireframe (_object this)) ;;
    Some (withObject o (old_alambre (alambre (_modo this)) (_modoOldState this)) this)
  else Some this.

(** Lines 204-221. *)
Definition _updateModo_transperante (fuel : nat) (this : Model) : option Model :=
  if neqb (transperante (_modo this)) (transperante (_modoOldState this))
     && sombreado (_modo this) then
    o <- (if transperante (_modo this)
          then traverse fuel (setMaterial true 0.4) (_object this)
          else traverse fuel (setMaterial false 0) (_object this)) ;;
    Some (withObject o (old_transperante (transperante (_modo this)) (_modoOldState this)) this)
  else Some this.

(** Lines 223-243. *)
Definition _updateModo_sombreado (fuel : nat) (this : Model) : option Model :=
  if neqb (sombreado (_modo this)) (sombreado (_modoOldState this)) then
    if negb (sombreado (_modo this)) then
      o <- traverse fuel (setMaterial true 0) (_object this) ;;
      (* Disabling transparency *)
      let old := old_transperante false (_modoOldState this) in
      Some (withObject o (old_sombreado (sombreado (_modo this)) old) this)
    else
      o <- traverse fuel (setMaterial false 1) (_object this) ;;
      Some (withObject o (old_sombreado (sombreado (_modo this)) (_modoOldState this)) this)
  else Some this.

Definition _updateModo (fuel : nat) (this : Model) : option Model :=
  this <- _updateModo_alambre fuel this ;;
  this <- _updateModo_transperante fuel this ;;
  _updateModo_sombreado fuel this.

(** [updateModel (scene, camera)]; the scene argument is never read. *)
Definition updateModel (fuel : nat) (camera : Camera) (this : Model) : option Model :=
  _updateModo fuel (_updateRotation camera this).

(* ================================================================= *)
(** ** Sequences of calls on a [Model] *)

(** What the host page can do with a [Model]: the public setters and
    [updateModel]. *)
Inductive Op : Type :=
| SetObject (obj : Object3D)
| SetVista (orientation : Vector3)
| SetAlambre (boolean : bool)
| SetTransparente (boolean : bool)
| SetSombreado (boolean : bool)
| UpdateModel (camera : Camera).

Definition step (fuel : nat) (op : Op) (this : Model) : option Model :=
  match op with
  | SetObject obj => Some (set_object obj this)
  | SetVista v => Some (set_vista v this)
  | SetAlambre b => Some (set_alambre b this)
  | SetTransparente b => Some (set_transparente b this)
  | SetSombreado b => Some (set_sombreado b this)
  | UpdateModel camera => updateModel fuel camera this
  end.

Fixpoint run (fuel : nat) (ops : list Op) (this : Model) : option Model :=
  match ops with
  | [] => Some this
  | op :: ops' =>
      this <- step fuel op this ;;
      run fuel ops' this
  end.

(** Ghost state for the dirty flag: whether a vista write is waiting to be
    reconciled at the end of a sequence of calls. *)
Fixpoint pendingVista (ops : list Op) (pending : bool) : bool :=
  match ops with
  | [] => pending
  | SetVista _ :: ops' => pendingVista ops' true
  | UpdateModel _ :: ops' => pendingVista ops' false
  | _ :: ops' => pendingVista ops' pending
  end.

(** The materials of the meshes of a scene graph, in traversal order,
    those held in material arrays included. *)
Fixpoint meshMaterials (o : Object3D) : list Material :=
  match o with
  | mkObject3D _ k _ _ cs =>
      match k with
      | Mesh _ (Single m) => [m]
      | Mesh _ (Multi ms _ _) => ms
      | _ => []
      end ++ flat_map meshMaterials cs
  end.

(** The materials of the meshes that have one material. *)
Fixpoint singleMaterials (o : Object3D) : list Material :=
  match o with
  | mkObject3D _ k _ _ cs =>
      match k with
      | Mesh _ (Single m) => [m]
      | _ => []
      end ++ flat_map singleMaterials cs
  end.


(** Fuel that is enough for one [updateModel] pass over a model. *)
Definition enough (this : Model) (fuel : nat) : Prop :=
  height (_object this) + 2 < fuel.

(** What a traversal with [setMaterial t op] leaves behind: the same
    tree, with the two assignments made on the material of each mesh. *)
Fixpoint paint (t : bool) (op : float) (o : Object3D) : Object3D :=
  match o with
  | mkObject3D n k p c cs =>
      mkObject3D n
        match k with
        | Mesh g m => Mesh g (assignMaterial t op m)
        | _ => k
        end
        p c (map (paint t op) cs)
  end.

(** The overlay of lines 179-183 for a geometry. *)
Definition wireframeOf (g : Geometry) : Object3D :=
  mkObject3D "wireframe"
             (LineSegments (WireframeGeometry g) (LineBasicMaterial 0xEFEFEF%N))
             origin [] [].

(** The wireframe toggle as the specification words it: every mesh node
    gets one line-segment overlay, derived from its geometry and named
    [wireframe], as a further child; nothing else changes. *)
Fixpoint withOverlays (o : Object3D) : Object3D :=
  match o with
  | mkObject3D n k p c cs =>
      mkObject3D n k p c
        (map withOverlays cs ++
         match k with
         | Mesh g _ => [wireframeOf g]
         | _ => []
         end)
  end.

(** A subtree without meshes and without a node named [wireframe]. *)
Fixpoint bare (o : Object3D) : bool :=
  match o with
  | mkObject3D n k _ _ cs =>
      negb (String.eqb n "wireframe")
      && match k with Mesh _ _ => false | _ => true end
      && forallb bare cs
  end.

(** Scene graphs on which looking the overlay up by name finds it: no mesh
    is named [wireframe], and below a mesh there is neither another mesh
    nor a node of that name. *)
Fixpoint wireframeSafe (o : Object3D) : bool :=
  match o with
  | mkObject3D n k _ _ cs =>
      match k with
      | Mesh _ _ => negb (String.eqb n "wireframe") && forallb bare cs
      | _ => forallb wireframeSafe cs
      end
  end.

(** The flags of [_modoOldState] agree with [_modo] as far as a pass can
    make them: transparency is reconciled only while shading is on. *)
Definition settled (this : Model) : Prop :=
  _viewChange this = false /\
  alambre (_modoOldState this) = alambre (_modo this) /\
  sombreado (_modoOldState this) = sombreado (_modo this) /\
  (sombreado (_modo this) = true ->
   transperante (_modoOldState this) = transperante (_modo this)).

(** Overwrites the two [bordes] fields. *)
Definition withBordes (b b' : bool) (this : Model) : Model :=
  mkModel (_object this) (_vista this)
          (mkModo (sombreado (_modo this)) (alambre (_modo this))
                  (transperante (_modo this)) b)
          (mkModo (sombreado (_modoOldState this)) (alambre (_modoOldState this))
                  (transperante (_modoOldState this)) b')
          (_viewChange this).

(** Callbacks whose new children are leaves they leave alone: every child
    a node has after the callback either sits lower than the node did, or
    is a node the callback gives no children. *)
Definition tame (cb : Object3D -> Object3D) : Prop :=
  forall o c, In c (children (cb o)) ->
              height c < height o \/ children (cb c) = [].

(** The transform a node ends up with under an engine that gives each
    recorded call a meaning, starting from the transform [t0]. *)
Definition replay {T : Type} (sem : TransformCall -> T -> T)
           (cs : list TransformCall) (t0 : T) : T :=
  fold_left (fun t c => sem c t) cs t0.

(** The four calls of [_updateRotation], in the order of lines 101-108. *)
Definition vistaCalls (camera : Camera) (vista : Vector3) : list TransformCall :=
  [ LookAt (cameraPosition camera);
    RotateOnAxis (mkVector3 1 0 0) (x vista);
    RotateOnAxis (mkVector3 0 1 0) (y vista);
    RotateOnAxis (mkVector3 0 0 1) (z vista) ].

(** [createCamera ()] of [src/modelLoader.js], lines 82-87: only the
    position is read by [Model]. *)
Definition createCamera : Camera := mkCamera (mkVector3 100 100 100).

(** Sample scene graphs, as the asset loader hands them over: a group
    with one mesh; a mesh that carries a group named [wireframe]; a group
    with a mesh of one material and a mesh with an array of two; and a
    mesh with a mesh below it. *)
Definition cubeMaterial : Material := mkMaterial 0xCCCCCC%N false 1.

Definition cube : Object3D :=
  mkObject3D "Cube" (Mesh (BufferGeometry 0) cubeMaterial) origin [] [].

Definition cubeScene : Object3D := mkObject3D "Scene" Plain origin [] [cube].

Definition taggedScene : Object3D :=
  mkObject3D "Scene" Plain origin []
    [mkObject3D "Cube" (Mesh (BufferGeometry 0) cubeMaterial) origin []
       [mkObject3D "wireframe" Plain origin [] []]].



Definition nestedScene : Object3D :=
  mkObject3D "Scene" Plain origin []
    [mkObject3D "Body" (Mesh (BufferGeometry 0) cubeMaterial) origin []
       [mkObject3D "Lid" (Mesh (BufferGeometry 1) cubeMaterial) origin [] []]].

(** A model whose asset has finished loading (the load callback of
    [src/modelLoader.js], line 144). *)
Definition loaded (scene : Object3D) : Model := set_object scene newModel.

(** Calls that only record a request: the vista setter and the three
    mode setters. *)
Definition isSetter (op : Op) : bool :=
  match op with
  | SetVista _ | SetAlambre _ | SetTransparente _ | SetSombreado _ => true
  | SetObject _ | UpdateModel _ => false
  end.

(** The value last written to each field by a sequence of calls, [d] when
    the sequence does not write the field. *)
Fixpoint lastVista (ops : list Op) (d : Vector3) : Vector3 :=
  match ops with
  | [] => d
  | SetVista v :: ops' => lastVista ops' v
  | _ :: ops' => lastVista ops' d
  end.

Fixpoint lastAlambre (ops : list Op) (d : bool) : bool :=
  match ops with
  | [] => d
  | SetAlambre b :: ops' => lastAlambre ops' b
  | _ :: ops' => lastAlambre ops' d
  end.

Fixpoint lastTransparente (ops : list Op) (d : bool) : bool :=
  match ops with
  | [] => d
  | SetTransparente b :: ops' => lastTransparente ops' b
  | _ :: ops' => lastTransparente ops' d
  end.

Fixpoint lastSombreado (ops : list Op) (d : bool) : bool :=
  match ops with
  | [] => d
  | SetSombreado b :: ops' => lastSombreado ops' b
  | _ :: ops' => lastSombreado ops' d
  end.

(** The model a burst of setter calls leaves: the object and the snapshot
    as they were, each requested field at its last written value. *)
Definition requested (ops : list Op) (this : Model) : Model :=
  mkModel (_object this)
          (lastVista ops (_vista this))
          (mkModo (lastSombreado ops (sombreado (_modo this)))
                  (lastAlambre ops (alambre (_modo this)))
                  (lastTransparente ops (transperante (_modo this)))
                  (bordes (_modo this)))
          (_modoOldState this)
          (pendingVista ops (_viewChange this)).

(** A scene graph in which no node is named [wireframe]. *)
Fixpoint noWireframeNode (o : Object3D) : bool :=
  match o with
  | mkObject3D n _ _ _ cs =>
      negb (String.eqb n "wireframe") && forallb noWireframeNode cs
  end.

(* ================================================================= *)
(** ** The orientation the engine computes from the transform calls *)

(** The real number a finite JavaScript number stands for; 0 for NaN and
    the infinities, which no axis or angle below holds. *)
Definition SF2R (f : spec_float) : R :=
  match f with
  | S754_finite s m e =>
      let v := match e with
               | Z0 => IZR (Zpos m)
               | Zpos p => IZR (Zpos m * 2 ^ Zpos p)
               | Zneg p => (IZR (Zpos m) / IZR (2 ^ Zpos p))%R
               end in
      if s then (- v)%R else v
  | _ => 0%R
  end.

Definition toReal (n : float) : R := SF2R (Prim2SF n).

(** [THREE.Quaternion], in exact arithmetic. *)
Record Quaternion : Type := mkQuaternion { qx : R; qy : R; qz : R; qw : R }.

Definition identityQuaternion : Quaternion := mkQuaternion 0 0 0 1.

(** Modelled from the spec: [Quaternion.multiplyQuaternions (a, b)] of
    the scene engine ([three.module.js] is not among the sources): the
    Hamilton product of [a] and [b]. *)
Definition multiplyQuaternions (a b : Quaternion) : Quaternion :=
  mkQuaternion
    (qx a * qw b + qw a * qx b + qy a * qz b - qz a * qy b)%R
    (qy a * qw b + qw a * qy b + qz a * qx b - qx a * qz b)%R
    (qz a * qw b + qw a * qz b + qx a * qy b - qy a * qx b)%R
    (qw a * qw b - qx a * qx b - qy a * qy b - qz a * qz b)%R.

(** Modelled from the spec: [Quaternion.setFromAxisAngle (axis, angle)] of
    the scene engine ([three.module.js] is not among the sources): the
    rotation by [angle] radians about the normalised [axis]. *)
Definition setFromAxisAngle (axis : Vector3) (angle : float) : Quaternion :=
  let halfAngle := (toReal angle / 2)%R in
  let s := sin halfAngle in
  mkQuaternion (toReal (x axis) * s)%R (toReal (y axis) * s)%R
               (toReal (z axis) * s)%R (cos halfAngle).

(** Modelled from the spec: what [Object3D.rotateOnAxis (axis, angle)] of
    the scene engine does to the node's quaternion: it multiplies it on
    the right by the axis-angle quaternion, a rotation about the axis in
    the node's own (object) space. *)
Definition rotateOnAxis_quaternion (axis : Vector3) (angle : float)
           (q : Quaternion) : Quaternion :=
  multiplyQuaternions q (setFromAxisAngle axis angle).

(** Modelled from the spec: what [Object3D.rotateOnWorldAxis (axis, angle)]
    of the scene engine does to the node's quaternion: it multiplies it on
    the left, a rotation about the axis in world space. The class never
    calls it. *)
Definition rotateOnWorldAxis_quaternion (axis : Vector3) (angle : float)
           (q : Quaternion) : Quaternion :=
  multiplyQuaternions (setFromAxisAngle axis angle) q.

(** The quaternion a node has after the recorded calls, starting from
    [q]. [lookAt] overwrites the quaternion with the one that faces the
    target; that one, [facing target], comes from the engine's matrix
    arithmetic and is left to the caller. *)
Fixpoint orientation (facing : Vector3 -> Quaternion)
         (cs : list TransformCall) (q : Quaternion) : Quaternion :=
  match cs with
  | [] => q
  | LookAt target :: cs' => orientation facing cs' (facing target)
  | RotateOnAxis axis angle :: cs' =>
      orientation facing cs' (rotateOnAxis_quaternion axis angle q)
  end.

(** The composition the specification describes: from the facing-camera
    baseline, a rotation about the world X axis by the stored x
    component, then about world Y, then about world Z. *)
Definition worldAxisComposition (vista : Vector3) (baseline : Quaternion)
  : Quaternion :=
  rotateOnWorldAxis_quaternion (mkVector3 0 0 1) (z vista)
    (rotateOnWorldAxis_quaternion (mkVector3 0 1 0) (y vista)
       (rotateOnWorldAxis_quaternion (mkVector3 1 0 0) (x vista) baseline)).

(** A camera straight ahead of a model that sits at the origin, on the
    model's +Z axis: facing it leaves the model's quaternion the
    identity. *)
Definition aheadCamera : Camera := mkCamera (mkVector3 0 0 100).

(* ================================================================= *)
(** ** Scene graphs: height *)

Lemma height_eq (o : Object3D) :
  height o = S (list_max (map height (children o))).
Proof. now destruct o. Qed.

Lemma height_pos (o : Object3D) : 1 <= height o.
Proof. rewrite height_eq. lia. Qed.

Lemma height_child (o c : Object3D) :
  In c (children o) -> height c < height o.
Proof.
  intro H. rewrite (height_eq o).
  assert (height c <= list_max (map height (children o))); [|lia].
  revert H. generalize (children o). intro l.
  induction l as [|a l IH]; simpl; [tauto|].
  intros [-> | H]; [lia|]. specialize (IH H). lia.
Qed.

Lemma height_bound (o : Object3D) (n : nat) :
  (forall c, In c (children o) -> height c <= n) -> height o <= S n.
Proof.
  intro H. rewrite height_eq.
  assert (list_max (map height (children o)) <= n); [|lia].
  revert H. generalize (children o). intro l.
  induction l as [|a l IH]; simpl; intro H; [lia|].
  assert (height a <= n) by (apply H; now left).
  assert (list_max (map height l) <= n) by (apply IH; intros; apply H; now right).
  lia.
Qed.

(* ================================================================= *)
(** ** Traversals: fuel, totality, what they keep *)

Lemma mapM_Some_inv {A B : Type} (f : A -> option B) (l : list A) (rs : list B) :
  mapM f l = Some rs -> Forall2 (fun a r => f a = Some r) l rs.
Proof.
  revert rs. induction l as [|a l IH]; simpl; intros rs H.
  - injection H as <-. constructor.
  - destruct (f a) as [b|] eqn:Ea; simpl in H; [|discriminate].
    destruct (mapM f l) as [bs|] eqn:El; simpl in H; [|discriminate].
    injection H as <-. constructor; auto.
Qed.

Lemma mapM_Some_intro {A B : Type} (f : A -> option B) (l : list A) (rs : list B) :
  Forall2 (fun a r => f a = Some r) l rs -> mapM f l = Some rs.
Proof.
  induction 1 as [|a r l rs Ha _ IH]; simpl; [reflexivity|].
  now rewrite Ha, IH.
Qed.

Lemma mapM_total {A B : Type} (f : A -> option B) (l : list A) :
  (forall a, In a l -> exists b, f a = Some b) -> exists bs, mapM f l = Some bs.
Proof.
  induction l as [|a l IH]; simpl; intro H; [now eexists|].
  destruct (H a) as [b Hb]; [now left|].
  destruct IH as [bs Hbs]; [intros; apply H; now right|].
  exists (b :: bs). now rewrite Hb, Hbs.
Qed.

(** More fuel never changes the result of a traversal. *)
Lemma traverse_mono (cb : Object3D -> Object3D) (fuel : nat) :
  forall fuel' o r,
    traverse fuel cb o = Some r -> fuel <= fuel' -> traverse fuel' cb o = Some r.
Proof.
  induction fuel as [|fuel IH]; intros fuel' o r H Hle; [discriminate|].
  destruct fuel' as [|fuel']; [lia|].
  simpl in *.
  destruct (mapM (traverse fuel cb) (children (cb o))) as [cs|] eqn:E;
    simpl in H; [|discriminate].
  assert (E' : mapM (traverse fuel' cb) (children (cb o)) = Some cs).
  { apply mapM_Some_intro. apply mapM_Some_inv in E. clear H.
    induction E as [|c rc l rs Hc _ IHl]; [constructor|].
    constructor; [apply IH with (1 := Hc); lia | exact IHl]. }
  rewrite E'. exact H.
Qed.

Lemma traverse_total (cb : Object3D -> Object3D) (Hcb : tame cb) (fuel : nat) :
  forall o, height o < fuel ->
            exists r, traverse fuel cb o = Some r /\ height r <= S (height o).
Proof.
  induction fuel as [|fuel IH]; intros o Hh; [lia|].
  simpl.
  assert (Hc : forall c, In c (children (cb o)) ->
             exists r, traverse fuel cb c = Some r /\ height r <= height o).
  { intros c Hin. destruct (Hcb o c Hin) as [Hlt | Hleaf].
    - destruct (IH c) as [r [Hr Hhr]]; [lia|]. exists r. split; [exact Hr | lia].
    - destruct fuel as [|fuel]; [pose proof (height_pos o); lia|].
      simpl. rewrite Hleaf. simpl. eexists. split; [reflexivity|].
      pose proof (height_pos o).
      rewrite height_eq. simpl. lia. }
  destruct (mapM_total (traverse fuel cb) (children (cb o))) as [cs Hcs].
  { intros c Hin. destruct (Hc c Hin) as [r [Hr _]]. now exists r. }
  rewrite Hcs. simpl. eexists. split; [reflexivity|].
  apply height_bound. simpl. intros r Hin.
  apply mapM_Some_inv in Hcs.
  clear - Hc Hcs Hin.
  induction Hcs as [|c r' l rs Hcr _ IHl]; [destruct Hin|].
  destruct Hin as [-> | Hin].
  - destruct (Hc c) as [r2 [Hr2 Hh2]]; [now left|]. congruence.
  - apply IHl; [|exact Hin]. intros c0 H0. apply Hc. now right.
Qed.

Lemma removeNth_incl {A : Type} (i : nat) (l : list A) (a : A) :
  In a (removeNth i l) -> In a l.
Proof.
  revert i. induction l as [|b l IH]; intros [|i]; simpl; auto.
  intros [-> | H]; [now left | right; eauto].
Qed.

Lemma setMaterial_children (t : bool) (op : float) (o : Object3D) :
  children (setMaterial t op o) = children o.
Proof. unfold setMaterial. now destruct (kind o). Qed.

Lemma remove_children_incl (target : option Ref) (o c : Object3D) :
  In c (children (remove target o)) -> In c (children o).
Proof.
  destruct target as [[|i [|j r]]|]; simpl; auto. apply removeNth_incl.
Qed.

Lemma tame_setMaterial (t : bool) (op : float) : tame (setMaterial t op).
Proof.
  intros o c H. left. rewrite setMaterial_children in H.
  now apply height_child.
Qed.

Lemma tame_addWireframe : tame addWireframe.
Proof.
  intros o c H. unfold addWireframe in H.
  destruct (kind o) eqn:Ek; try (left; now apply height_child).
  simpl in H. apply in_app_or in H. destruct H as [H | [<- | []]].
  - left. now apply height_child.
  - right. reflexivity.
Qed.

Lemma tame_removeWireframe : tame removeWireframe.
Proof.
  intros o c H. left. apply height_child.
  unfold removeWireframe in H. destruct (isMesh o); [|exact H].
  now apply remove_children_incl in H.
Qed.

(** Destructs the traversals met while a pass is unfolded. *)
Ltac traversals :=
  repeat match goal with
    | H : context [traverse ?f ?cb ?o] |- _ =>
        lazymatch type of H with
        | traverse _ _ _ = _ => fail
        | _ => idtac
        end;
        let E := fresh "Etr" in
        destruct (traverse f cb o) eqn:E; simpl in H; try discriminate
    | H : Some _ = Some _ |- _ => injection H as H; try subst
    end.

Ltac flags :=
  repeat match goal with
    | b : bool |- _ => destruct b
    end.

(** Each of the three blocks returns when the fuel exceeds the height of
    the scene graph, and adds at most one level to it. *)
Lemma _updateModo_alambre_total (fuel : nat) (this : Model) :
  height (_object this) < fuel ->
  exists this', _updateModo_alambre fuel this = Some this' /\
                height (_object this') <= S (height (_object this)).
Proof.
  intro H. unfold _updateModo_alambre.
  destruct (neqb _ _); [|exists this; split; [reflexivity | lia]].
  destruct (alambre (_modo this)).
  - destruct (traverse_total _ tame_addWireframe fuel _ H) as [r [-> Hr]].
    simpl. eexists; split; [reflexivity | exact Hr].
  - destruct (traverse_total _ tame_removeWireframe fuel _ H) as [r [-> Hr]].
    simpl. eexists; split; [reflexivity | exact Hr].
Qed.

Lemma _updateModo_transperante_total (fuel : nat) (this : Model) :
  height (_object this) < fuel ->
  exists this', _updateModo_transperante fuel this = Some this' /\
                height (_object this') <= S (height (_object this)).
Proof.
  intro H. unfold _updateModo_transperante.
  destruct (_ && _); [|exists this; split; [reflexivity | lia]].
  destruct (transperante (_modo this)).
  - destruct (traverse_total _ (tame_setMaterial true 0.4) fuel _ H) as [r [-> Hr]].
    simpl. eexists; split; [reflexivity | exact Hr].
  - destruct (traverse_total _ (tame_setMaterial false 0) fuel _ H) as [r [-> Hr]].
    simpl. eexists; split; [reflexivity | exact Hr].
Qed.

Lemma _updateModo_sombreado_total (fuel : nat) (this : Model) :
  height (_object this) < fuel ->
  exists this', _updateModo_sombreado fuel this = Some this' /\
                height (_object this') <= S (height (_object this)).
Proof.
  intro H. unfold _updateModo_sombreado.
  destruct (neqb _ _); [|exists this; split; [reflexivity | lia]].
  destruct (negb (sombreado (_modo this))).
  - destruct (traverse_total _ (tame_setMaterial true 0) fuel _ H) as [r [-> Hr]].
    simpl. eexists; split; [reflexivity | exact Hr].
  - destruct (traverse_total _ (tame_setMaterial false 1) fuel _ H) as [r [-> Hr]].
    simpl. eexists; split; [reflexivity | exact Hr].
Qed.

Lemma _updateRotation_height (camera : Camera) (this : Model) :
  height (_object (_updateRotation camera this)) = height (_object this).
Proof.
  destruct this as [[n k p c cs] v m old [|]]; reflexivity.
Qed.

(** [updateModel] returns. *)
Lemma updateModel_total (fuel : nat) (camera : Camera) (this : Model) :
  enough this fuel -> exists this', updateModel fuel camera this = Some this'.
Proof.
  unfold enough, updateModel, _updateModo. intro H.
  rewrite <- (_updateRotation_height camera) in H.
  destruct (_updateModo_alambre_total fuel (_updateRotation camera this))
    as [s1 [-> H1]]; [lia|]. simpl.
  destruct (_updateModo_transperante_total fuel s1) as [s2 [-> H2]]; [lia|]. simpl.
  destruct (_updateModo_sombreado_total fuel s2) as [s3 [-> H3]]; [lia|].
  now exists s3.
Qed.

(** More fuel, same pass. *)
Lemma _updateModo_alambre_mono (fuel fuel' : nat) (this this' : Model) :
  _updateModo_alambre fuel this = Some this' -> fuel <= fuel' ->
  _updateModo_alambre fuel' this = Some this'.
Proof.
  unfold _updateModo_alambre. intros H Hle.
  destruct (neqb _ _); [|exact H].
  destruct (alambre (_modo this)); traversals;
    now rewrite (traverse_mono _ _ _ _ _ Etr Hle).
Qed.

Lemma _updateModo_transperante_mono (fuel fuel' : nat) (this this' : Model) :
  _updateModo_transperante fuel this = Some this' -> fuel <= fuel' ->
  _updateModo_transperante fuel' this = Some this'.
Proof.
  unfold _updateModo_transperante. intros H Hle.
  destruct (_ && _); [|exact H].
  destruct (transperante (_modo this)); traversals;
    now rewrite (traverse_mono _ _ _ _ _ Etr Hle).
Qed.

Lemma _updateModo_sombreado_mono (fuel fuel' : nat) (this this' : Model) :
  _updateModo_sombreado fuel this = Some this' -> fuel <= fuel' ->
  _updateModo_sombreado fuel' this = Some this'.
Proof.
  unfold _updateModo_sombreado. intros H Hle.
  destruct (neqb _ _); [|exact H].
  destruct (negb _); traversals;
    now rewrite (traverse_mono _ _ _ _ _ Etr Hle).
Qed.

Lemma updateModel_mono (fuel fuel' : nat) (camera : Camera) (this this' : Model) :
  updateModel fuel camera this = Some this' -> fuel <= fuel' ->
  updateModel fuel' camera this = Some this'.
Proof.
  unfold updateModel, _updateModo. generalize (_updateRotation camera this).
  intros s H Hle.
  destruct (_updateModo_alambre fuel s) as [s1|] eqn:E1; [|discriminate].
  rewrite (_updateModo_alambre_mono _ _ _ _ E1 Hle). simpl in *.
  destruct (_updateModo_transperante fuel s1) as [s2|] eqn:E2; [|discriminate].
  rewrite (_updateModo_transperante_mono _ _ _ _ E2 Hle). simpl in *.
  now apply _updateModo_sombreado_mono with (fuel := fuel).
Qed.

(* ================================================================= *)
(** ** What each traversal computes *)

Lemma mapM_map_inv {A : Type} (f : A -> option A) (g : A -> A) (l rs : list A) :
  Forall (fun a => forall r, f a = Some r -> r = g a) l ->
  mapM f l = Some rs -> rs = map g l.
Proof.
  intros HF H. apply mapM_Some_inv in H.
  induction H as [|a r l rs Ha _ IH]; [reflexivity|].
  inversion HF as [|? ? Hhd Htl]; subst. simpl.
  rewrite (Hhd r Ha). f_equal. now apply IH.
Qed.

Lemma traverse_setMaterial (t : bool) (op : float) (fuel : nat) :
  forall o r, traverse fuel (setMaterial t op) o = Some r -> r = paint t op o.
Proof.
  induction fuel as [|fuel IH]; intros o r H; [discriminate|].
  simpl in H. rewrite setMaterial_children in H.
  destruct (mapM _ _) as [cs|] eqn:E; simpl in H; [|discriminate].
  injection H as <-.
  apply mapM_map_inv with (g := paint t op) in E.
  - subst cs. destruct o as [n k p c l]. unfold setMaterial. simpl.
    now destruct k.
  - apply Forall_forall. intros c _ r Hr. now apply IH.
Qed.

Lemma traverse_addWireframe (fuel : nat) :
  forall o r, traverse fuel addWireframe o = Some r -> r = withOverlays o.
Proof.
  induction fuel as [|fuel IH]; intros o r H; [discriminate|].
  simpl in H.
  destruct (mapM _ _) as [cs|] eqn:E; simpl in H; [|discriminate].
  injection H as <-.
  apply mapM_map_inv with (g := withOverlays) in E.
  - subst cs. destruct o as [n k p c l]. unfold addWireframe. simpl.
    destruct k; simpl; unfold setChildren; simpl; f_equal;
      [now rewrite app_nil_r | now rewrite map_app | now rewrite app_nil_r].
  - apply Forall_forall. intros c _ r Hr. now apply IH.
Qed.

Lemma firstOf_none {A : Type} (find : A -> option Ref) (l : list A) :
  Forall (fun c => find c = None) l -> forall i, firstOf find i l = None.
Proof.
  induction 1 as [|c l Hc _ IH]; intro i; simpl; [reflexivity|].
  now rewrite Hc.
Qed.

Lemma firstOf_last {A : Type} (find : A -> option Ref) (l : list A) (w : A) (r : Ref) :
  Forall (fun c => find c = None) l -> find w = Some r ->
  forall i, firstOf find i (l ++ [w]) = Some ((i + length l) :: r).
Proof.
  intros Hl Hw. induction Hl as [|c l Hc _ IH]; intro i; simpl.
  - rewrite Hw. now rewrite Nat.add_0_r.
  - rewrite Hc, IH. do 2 f_equal. lia.
Qed.

Lemma removeNth_last {A : Type} (l : list A) (w : A) :
  removeNth (length l) (l ++ [w]) = l.
Proof. induction l as [|a l IH]; simpl; [reflexivity | now rewrite IH]. Qed.

Lemma mapM_map_back {A : Type} (f : A -> option A) (g : A -> A) (l rs : list A) :
  Forall (fun a => forall r, f (g a) = Some r -> r = a) l ->
  mapM f (map g l) = Some rs -> rs = l.
Proof.
  intros HF H. apply mapM_Some_inv in H. revert rs H.
  induction HF as [|a l Ha _ IH]; intros rs H; inversion H; subst; [reflexivity|].
  f_equal; auto.
Qed.

Lemma bare_parts (n : string) (k : NodeKind) (p : Vector3)
      (c : list TransformCall) (cs : list Object3D) :
  bare (mkObject3D n k p c cs) = true ->
  String.eqb n "wireframe" = false /\
  isMesh (mkObject3D n k p c cs) = false /\
  Forall (fun a => bare a = true) cs.
Proof.
  simpl. intro H. apply andb_true_iff in H. destruct H as [H H3].
  apply andb_true_iff in H. destruct H as [H1 H2].
  repeat split.
  - now apply negb_true_iff.
  - unfold isMesh. simpl. now destruct k.
  - apply Forall_forall. now apply forallb_forall.
Qed.

Lemma bare_getObjectByName (o : Object3D) :
  bare o = true -> getObjectByName "wireframe" o = None.
Proof.
  induction o as [n k p c cs IH] using Object3D_tree_ind. intro H.
  destruct (bare_parts _ _ _ _ _ H) as [Hn [_ Hcs]].
  simpl. rewrite Hn. apply firstOf_none.
  apply Forall_forall. intros a Ha.
  rewrite Forall_forall in IH, Hcs. auto.
Qed.

Lemma bare_withOverlays (o : Object3D) : bare o = true -> withOverlays o = o.
Proof.
  induction o as [n k p c cs IH] using Object3D_tree_ind. intro H.
  destruct (bare_parts _ _ _ _ _ H) as [_ [Hk Hcs]].
  simpl. f_equal.
  replace (map withOverlays cs) with cs.
  - destruct k; try discriminate; apply app_nil_r.
  - symmetry. rewrite <- (map_id cs) at 2. apply map_ext_in.
    intros a Ha. rewrite Forall_forall in IH, Hcs. auto.
Qed.

Lemma bare_traverse_removeWireframe (fuel : nat) :
  forall o r, bare o = true ->
              traverse fuel removeWireframe o = Some r -> r = o.
Proof.
  induction fuel as [|fuel IH]; intros o r Hb H; [discriminate|].
  destruct o as [n k p c cs].
  destruct (bare_parts _ _ _ _ _ Hb) as [_ [Hk Hcs]].
  simpl in H. unfold removeWireframe in H. rewrite Hk in H. simpl in H.
  destruct (mapM _ _) as [rs|] eqn:E; simpl in H; [|discriminate].
  injection H as <-. unfold setChildren. simpl. f_equal.
  rewrite <- (map_id cs) in E. apply mapM_map_back in E; [exact E|].
  apply Forall_forall. intros a Ha r Hr.
  rewrite Forall_forall in Hcs. apply IH; auto.
Qed.

(** On a safe scene graph the removal traversal undoes the overlays. *)
Lemma traverse_removeWireframe_withOverlays (o : Object3D) :
  wireframeSafe o = true ->
  forall fuel r,
    traverse fuel removeWireframe (withOverlays o) = Some r -> r = o.
Proof.
  induction o as [n k p c cs IH] using Object3D_tree_ind. intros Hs [|fuel] r H; [discriminate|].
  destruct k as [|g m|g m].
  - (* a group: the callback leaves it, the children are undone in turn *)
    simpl in Hs, H. rewrite app_nil_r in H.
    unfold removeWireframe in H. simpl in H.
    destruct (mapM _ _) as [rs|] eqn:E; simpl in H; [|discriminate].
    injection H as <-. unfold setChildren. simpl. f_equal.
    apply mapM_map_back in E; [exact E|].
    apply Forall_forall. intros a Ha r Hr.
    rewrite Forall_forall in IH. apply (IH a Ha) with (fuel := fuel); [|exact Hr].
    rewrite forallb_forall in Hs. auto.
  - (* a mesh: its overlay is the first node found by name *)
    simpl in Hs. apply andb_true_iff in Hs. destruct Hs as [Hn Hcs].
    apply negb_true_iff in Hn.
    assert (Hb : Forall (fun a => bare a = true) cs)
      by (apply Forall_forall; now apply forallb_forall).
    assert (Hmap : map withOverlays cs = cs).
    { rewrite <- (map_id cs) at 2. apply map_ext_in. intros a Ha.
      rewrite Forall_forall in Hb. now apply bare_withOverlays; auto. }
    simpl in H. rewrite Hmap in H.
    unfold removeWireframe in H. simpl in H. rewrite Hn in H.
    rewrite (firstOf_last (getObjectByName "wireframe") cs (wireframeOf g) [])
      in H; [| | reflexivity].
    2:{ apply Forall_forall. intros a Ha. rewrite Forall_forall in Hb.
        apply bare_getObjectByName; auto. }
    simpl in H. rewrite removeNth_last in H.
    destruct (mapM _ _) as [rs|] eqn:E; simpl in H; [|discriminate].
    injection H as <-. unfold setChildren. simpl. f_equal.
    rewrite <- (map_id cs) in E. apply mapM_map_back in E; [exact E|].
    apply Forall_forall. intros a Ha r Hr. rewrite Forall_forall in Hb.
    apply bare_traverse_removeWireframe with (fuel := fuel); auto.
  - (* line segments: as a group *)
    simpl in Hs, H. rewrite app_nil_r in H.
    unfold removeWireframe in H. simpl in H.
    destruct (mapM _ _) as [rs|] eqn:E; simpl in H; [|discriminate].
    injection H as <-. unfold setChildren. simpl. f_equal.
    apply mapM_map_back in E; [exact E|].
    apply Forall_forall. intros a Ha r Hr.
    rewrite Forall_forall in IH. apply (IH a Ha) with (fuel := fuel); [|exact Hr].
    rewrite forallb_forall in Hs. auto.
Qed.

(* ================================================================= *)
(** ** What each block of [_updateModo] does to the fields *)

Lemma neqb_refl (b : bool) : neqb b b = false.
Proof. now destruct b. Qed.

Lemma _updateModo_alambre_fields (fuel : nat) (this this' : Model) :
  _updateModo_alambre fuel this = Some this' ->
  _vista this' = _vista this /\ _modo this' = _modo this /\
  _viewChange this' = _viewChange this /\
  _modoOldState this' = old_alambre (alambre (_modo this)) (_modoOldState this).
Proof.
  unfold _updateModo_alambre.
  destruct this as [o v [ms ma mt mb] [os oa ot ob] vc]; simpl.
  destruct ma, oa; simpl; intro H; traversals; auto.
Qed.

Lemma _updateModo_transperante_fields (fuel : nat) (this this' : Model) :
  _updateModo_transperante fuel this = Some this' ->
  _vista this' = _vista this /\ _modo this' = _modo this /\
  _viewChange this' = _viewChange this /\
  _modoOldState this' =
    if sombreado (_modo this)
    then old_transperante (transperante (_modo this)) (_modoOldState this)
    else _modoOldState this.
Proof.
  unfold _updateModo_transperante.
  destruct this as [o v [ms ma mt mb] [os oa ot ob] vc]; simpl.
  destruct mt, ot, ms; simpl; intro H; traversals; auto.
Qed.

Lemma _updateModo_sombreado_fields (fuel : nat) (this this' : Model) :
  _updateModo_sombreado fuel this = Some this' ->
  _vista this' = _vista this /\ _modo this' = _modo this /\
  _viewChange this' = _viewChange this /\
  _modoOldState this' =
    if sombreado (_modoOldState this) && negb (sombreado (_modo this))
    then old_sombreado false (old_transperante false (_modoOldState this))
    else old_sombreado (sombreado (_modo this)) (_modoOldState this).
Proof.
  unfold _updateModo_sombreado.
  destruct this as [o v [ms ma mt mb] [os oa ot ob] vc]; simpl.
  destruct ms, os; simpl; intro H; traversals; auto.
Qed.

Lemma _updateRotation_fields (camera : Camera) (this : Model) :
  _vista (_updateRotation camera this) = _vista this /\
  _modo (_updateRotation camera this) = _modo this /\
  _viewChange (_updateRotation camera this) = false /\
  _modoOldState (_updateRotation camera this) = _modoOldState this.
Proof. unfold _updateRotation. destruct (_viewChange this) eqn:E; simpl; auto. Qed.

(** Splits a pass into its four stages. *)
Lemma updateModel_stages (fuel : nat) (camera : Camera) (this this' : Model) :
  updateModel fuel camera this = Some this' ->
  exists s1 s2,
    _updateModo_alambre fuel (_updateRotation camera this) = Some s1 /\
    _updateModo_transperante fuel s1 = Some s2 /\
    _updateModo_sombreado fuel s2 = Some this'.
Proof.
  unfold updateModel, _updateModo. intro H.
  destruct (_updateModo_alambre _ _) as [s1|]; simpl in H; [|discriminate].
  destruct (_updateModo_transperante _ _) as [s2|] eqn:E2; simpl in H; [|discriminate].
  now exists s1, s2.
Qed.

(** After a pass nothing is pending. *)
Lemma updateModel_settled (fuel : nat) (camera : Camera) (this this' : Model) :
  updateModel fuel camera this = Some this' -> settled this'.
Proof.
  intro H. apply updateModel_stages in H. destruct H as [s1 [s2 [H1 [H2 H3]]]].
  apply _updateModo_alambre_fields in H1.
  apply _updateModo_transperante_fields in H2.
  apply _updateModo_sombreado_fields in H3.
  destruct (_updateRotation_fields camera this) as [R1 [R2 [R3 R4]]].
  destruct H1 as [A1 [A2 [A3 A4]]]. destruct H2 as [B1 [B2 [B3 B4]]].
  destruct H3 as [C1 [C2 [C3 C4]]].
  unfold settled. rewrite C3, B3, A3, R3, C2, C4, B2, B4, A2, A4, R2, R4.
  destruct (_modo this) as [ms ma mt mb], (_modoOldState this) as [os oa ot ob].
  simpl. destruct ms, os; simpl; intuition discriminate.
Qed.

(** A pass over a model with nothing pending changes nothing, whatever
    the fuel. *)
Lemma settled_updateModel (fuel : nat) (camera : Camera) (this : Model) :
  settled this -> updateModel fuel camera this = Some this.
Proof.
  destruct this as [o v [ms ma mt mb] [os oa ot ob] vc].
  unfold settled; simpl. intros [-> [-> [-> H]]].
  unfold updateModel, _updateRotation, _updateModo, _updateModo_alambre; simpl.
  rewrite neqb_refl. simpl.
  unfold _updateModo_transperante; simpl.
  destruct ms; simpl.
  - rewrite (H eq_refl), neqb_refl. simpl.
    unfold _updateModo_sombreado; simpl. reflexivity.
  - rewrite andb_false_r. simpl. reflexivity.
Qed.

(* ================================================================= *)
(** ** The root transform *)

Lemma traverse_calls (cb : Object3D -> Object3D) :
  (forall o, calls (cb o) = calls o) ->
  forall fuel o r, traverse fuel cb o = Some r -> calls r = calls o.
Proof.
  intros Hcb [|fuel] o r H; [discriminate|]. simpl in H.
  destruct (mapM _ _); simpl in H; [|discriminate].
  injection H as <-. simpl. apply Hcb.
Qed.

Lemma setMaterial_calls (t : bool) (op : float) (o : Object3D) :
  calls (setMaterial t op o) = calls o.
Proof. unfold setMaterial. now destruct (kind o). Qed.

Lemma addWireframe_calls (o : Object3D) : calls (addWireframe o) = calls o.
Proof. unfold addWireframe. now destruct (kind o). Qed.

Lemma removeWireframe_calls (o : Object3D) : calls (removeWireframe o) = calls o.
Proof.
  unfold removeWireframe, remove. destruct (isMesh o); [|reflexivity].
  now destruct (getObjectByName _ _) as [[|i [|j r]]|].
Qed.

Lemma _updateModo_calls (fuel : nat) (this this' : Model) :
  _updateModo fuel this = Some this' ->
  calls (_object this') = calls (_object this).
Proof.
  unfold _updateModo, _updateModo_alambre, _updateModo_transperante,
    _updateModo_sombreado.
  destruct this as [o v [ms ma mt mb] [os oa ot ob] vc]; simpl.
  pose proof (traverse_calls _ addWireframe_calls) as Ha.
  pose proof (traverse_calls _ removeWireframe_calls) as Hr.
  pose proof (fun t op => traverse_calls _ (setMaterial_calls t op)) as Hm.
  destruct ma, oa, mt, ot, ms, os; simpl; intro H; traversals; simpl;
    repeat match goal with
      | E : traverse _ addWireframe _ = Some _ |- _ => apply Ha in E
      | E : traverse _ removeWireframe _ = Some _ |- _ => apply Hr in E
      | E : traverse _ (setMaterial _ _) _ = Some _ |- _ => apply Hm in E
      end; congruence.
Qed.

(* ================================================================= *)
(** ** Properties of the orientation controller and of the mode tracker *)

(** C8. On a freshly constructed model, before the loader has assigned an
    object, [updateModel] returns, whatever the fuel and the camera, and
    leaves every field as the constructor set it: the placeholder node gets
    no transform call, and no material or child is touched. *)
Theorem updateModel_before_load :
  forall (fuel : nat) (camera : Camera),
    updateModel fuel camera newModel = Some newModel.
Proof. intros fuel camera. reflexivity. Qed.

(** C4. [updateModel] is idempotent: with enough fuel for the first pass
    it returns, and any further pass (any camera, any fuel) returns the
    very same model, scene graph included. *)
Theorem updateModel_idempotent :
  forall (fuel : nat) (camera : Camera) (this : Model),
    enough this fuel ->
    exists this',
      updateModel fuel camera this = Some this' /\
      forall fuel' camera', updateModel fuel' camera' this' = Some this'.
Proof.
  intros fuel camera this H.
  destruct (updateModel_total fuel camera this H) as [this' E].
  exists this'. split; [exact E|]. intros fuel' camera'.
  apply settled_updateModel. now apply updateModel_settled in E.
Qed.

Lemma updateModel_idempotent_witness :
  enough (set_alambre true (set_vista VISTAS.ISOMETRICA (loaded cubeScene))) 5 /\
  exists this',
    updateModel 5 createCamera
      (set_alambre true (set_vista VISTAS.ISOMETRICA (loaded cubeScene)))
    = Some this' /\
    forall fuel' camera', updateModel fuel' camera' this' = Some this'.
Proof.
  assert (H : enough (set_alambre true (set_vista VISTAS.ISOMETRICA (loaded cubeScene))) 5)
    by (unfold enough; simpl; lia).
  split; [exact H|].
  exact (updateModel_idempotent 5 createCamera _ H).
Defined.

(** The record of calls. With the dirty flag set, [_updateRotation]
    issues, after whatever the node had, exactly four calls in this
    order: [lookAt] the camera position, then [rotateOnAxis] with the
    vector (1,0,0) and the stored x component, with (0,1,0) and y, with
    (0,0,1) and z. The whole pass keeps that record. *)
Theorem vista_rotation_order :
  forall (camera : Camera) (this : Model),
    _viewChange this = true ->
    calls (_object (_updateRotation camera this))
    = calls (_object this) ++
        [ LookAt (cameraPosition camera);
          RotateOnAxis (mkVector3 1 0 0) (x (_vista this));
          RotateOnAxis (mkVector3 0 1 0) (y (_vista this));
          RotateOnAxis (mkVector3 0 0 1) (z (_vista this)) ]
    /\ (forall fuel, enough this fuel ->
          exists this',
            updateModel fuel camera this = Some this' /\
            calls (_object this')
            = calls (_object this) ++ vistaCalls camera (_vista this))
    /\ (forall (T : Type) (sem : TransformCall -> T -> T) (t0 : T),
          replay sem (calls (_object (_updateRotation camera this))) t0
          = sem (RotateOnAxis (mkVector3 0 0 1) (z (_vista this)))
              (sem (RotateOnAxis (mkVector3 0 1 0) (y (_vista this)))
                 (sem (RotateOnAxis (mkVector3 1 0 0) (x (_vista this)))
                    (sem (LookAt (cameraPosition camera))
                       (replay sem (calls (_object this)) t0))))).
Proof.
  intros camera this Hv.
  assert (E : calls (_object (_updateRotation camera this))
              = calls (_object this) ++ vistaCalls camera (_vista this)).
  { unfold _updateRotation. rewrite Hv. simpl.
    rewrite <- !app_assoc. reflexivity. }
  split; [exact E|]. split.
  - intros fuel Hf. destruct (updateModel_total fuel camera this Hf) as [this' H].
    exists this'. split; [exact H|].
    unfold updateModel in H. apply _updateModo_calls in H. congruence.
  - intros T sem t0. rewrite E. unfold replay.
    rewrite fold_left_app. reflexivity.
Qed.

Lemma vista_rotation_order_witness :
  _viewChange (set_vista VISTAS.ISOMETRICA (loaded cubeScene)) = true /\
  calls (_object (_updateRotation createCamera
                    (set_vista VISTAS.ISOMETRICA (loaded cubeScene))))
  = [ LookAt (mkVector3 100 100 100);
      RotateOnAxis (mkVector3 1 0 0) 30;
      RotateOnAxis (mkVector3 0 1 0) 30;
      RotateOnAxis (mkVector3 0 0 1) 0 ].
Proof.
  split; [reflexivity|].
  exact (proj1 (vista_rotation_order createCamera
                  (set_vista VISTAS.ISOMETRICA (loaded cubeScene)) eq_refl)).
Defined.

(** *** The orientation those calls give *)

Lemma orientation_app (facing : Vector3 -> Quaternion)
      (cs cs' : list TransformCall) :
  forall q, orientation facing (cs ++ cs') q
            = orientation facing cs' (orientation facing cs q).
Proof.
  induction cs as [|c cs IH]; intro q; simpl; [reflexivity|].
  destruct c; apply IH.
Qed.

Lemma toReal_30 : toReal 30 = 30%R.
Proof.
  unfold toReal.
  replace (Prim2SF 30) with (S754_finite false 8444249301319680 (-48))
    by (vm_compute; reflexivity).
  unfold SF2R.
  replace (2 ^ 48)%Z with 281474976710656%Z by reflexivity.
  lra.
Qed.

Lemma toReal_1 : toReal 1 = 1%R.
Proof.
  unfold toReal.
  replace (Prim2SF 1) with (S754_finite false 4503599627370496 (-52))
    by (vm_compute; reflexivity).
  unfold SF2R.
  replace (2 ^ 52)%Z with 4503599627370496%Z by reflexivity.
  lra.
Qed.

Lemma toReal_0 : toReal 0 = 0%R.
Proof. reflexivity. Qed.

Lemma PI_bounds : (3 < PI <= 52 / 15)%R.
Proof.
  split.
  - pose proof PI2_3_2. lra.
  - pose proof (PI_ineq 1) as [_ H].
    unfold sum_f_R0, tg_alt, PI_tg in H. simpl in H. lra.
Qed.

(** 15 radians lie strictly between 4 pi and 5 pi. *)
Lemma sin_15_nonzero : sin 15 <> 0%R.
Proof.
  intro H. apply sin_eq_0_0 in H. destruct H as [k Hk].
  pose proof PI_bounds as [Hl Hu].
  destruct (Z.le_gt_cases k 4) as [Hk4 | Hk5].
  - apply IZR_le in Hk4. nra.
  - assert (H5 : (5 <= k)%Z) by lia. apply IZR_le in H5. nra.
Qed.

(** C6. What the four calls do to the model's quaternion. For every
    baseline the engine's [lookAt] leaves, [_updateRotation] multiplies it
    on the right by the X, then the Y, then the Z axis-angle quaternion:
    three rotations about the model's own axes, since [rotateOnAxis] works
    in object space. At the vista ISOMETRICA, with the camera straight
    ahead of the model (identity baseline), that quaternion is the
    product of the X and the Y rotation in this order and differs from
    the composition about the world axes X, then Y, then Z, which
    multiplies on the left. *)
Theorem vista_rotations_are_in_object_space :
  (forall (facing : Vector3 -> Quaternion) (q : Quaternion)
          (camera : Camera) (this : Model),
      _viewChange this = true ->
      orientation facing (calls (_object (_updateRotation camera this))) q
      = multiplyQuaternions
          (multiplyQuaternions
             (multiplyQuaternions
                (facing (cameraPosition camera))
                (setFromAxisAngle (mkVector3 1 0 0) (x (_vista this))))
             (setFromAxisAngle (mkVector3 0 1 0) (y (_vista this))))
          (setFromAxisAngle (mkVector3 0 0 1) (z (_vista this))))
  /\ orientation (fun _ => identityQuaternion)
       (calls (_object (_updateRotation aheadCamera
                          (set_vista VISTAS.ISOMETRICA (loaded cubeScene)))))
       identityQuaternion
     = multiplyQuaternions (setFromAxisAngle (mkVector3 1 0 0) 30)
                           (setFromAxisAngle (mkVector3 0 1 0) 30)
  /\ worldAxisComposition VISTAS.ISOMETRICA identityQuaternion
     = multiplyQuaternions (setFromAxisAngle (mkVector3 0 1 0) 30)
                           (setFromAxisAngle (mkVector3 1 0 0) 30)
  /\ orientation (fun _ => identityQuaternion)
       (calls (_object (_updateRotation aheadCamera
                          (set_vista VISTAS.ISOMETRICA (loaded cubeScene)))))
       identityQuaternion
     <> worldAxisComposition VISTAS.ISOMETRICA identityQuaternion.
Proof.
  assert (G : forall facing q camera this,
             _viewChange this = true ->
             orientation facing (calls (_object (_updateRotation camera this))) q
             = multiplyQuaternions
                 (multiplyQuaternions
                    (multiplyQuaternions
                       (facing (cameraPosition camera))
                       (setFromAxisAngle (mkVector3 1 0 0) (x (_vista this))))
                    (setFromAxisAngle (mkVector3 0 1 0) (y (_vista this))))
                 (setFromAxisAngle (mkVector3 0 0 1) (z (_vista this)))).
  { intros facing q camera this Hv.
    unfold _updateRotation. rewrite Hv. simpl.
    rewrite !orientation_app. reflexivity. }
  assert (E1 : orientation (fun _ => identityQuaternion)
                 (calls (_object (_updateRotation aheadCamera
                           (set_vista VISTAS.ISOMETRICA (loaded cubeScene)))))
                 identityQuaternion
               = multiplyQuaternions (setFromAxisAngle (mkVector3 1 0 0) 30)
                                     (setFromAxisAngle (mkVector3 0 1 0) 30)).
  { rewrite G by reflexivity.
    unfold setFromAxisAngle, multiplyQuaternions, identityQuaternion. simpl.
    rewrite toReal_30, toReal_1, toReal_0.
    replace (0 / 2)%R with 0%R by lra. rewrite sin_0, cos_0.
    f_equal; ring. }
  assert (E2 : worldAxisComposition VISTAS.ISOMETRICA identityQuaternion
               = multiplyQuaternions (setFromAxisAngle (mkVector3 0 1 0) 30)
                                     (setFromAxisAngle (mkVector3 1 0 0) 30)).
  { unfold worldAxisComposition, rotateOnWorldAxis_quaternion,
      setFromAxisAngle, multiplyQuaternions, identityQuaternion. simpl.
    rewrite toReal_30, toReal_1, toReal_0.
    replace (0 / 2)%R with 0%R by lra. rewrite sin_0, cos_0.
    f_equal; ring. }
  split; [exact G|]. split; [exact E1|]. split; [exact E2|].
  rewrite E1, E2.
  unfold setFromAxisAngle, multiplyQuaternions. simpl.
  rewrite toReal_30, toReal_1, toReal_0.
  replace (30 / 2)%R with 15%R by lra.
  intro H. injection H as _ _ Hz _.
  pose proof sin_15_nonzero. nra.
Qed.

(** Destructs the traversals met in the goal. *)
Ltac goal_traversals :=
  repeat match goal with
    | |- context [traverse ?f ?cb ?o] => destruct (traverse f cb o); simpl
    end.

(** C5. While the shaded flag is false the transparency block of
    [_updateModo] returns the model as it got it, whatever the two
    transparency flags say; a pass with nothing else pending changes
    nothing at all; and the scene graph a pass produces does not depend on
    the transparency flag. *)
Theorem transparency_needs_shading :
  forall (fuel : nat) (this : Model),
    sombreado (_modo this) = false ->
    _updateModo_transperante fuel this = Some this
    /\ (alambre (_modoOldState this) = alambre (_modo this) ->
        sombreado (_modoOldState this) = false ->
        _updateModo fuel this = Some this)
    /\ (forall camera b,
          option_map _object (updateModel fuel camera (set_transparente b this))
          = option_map _object (updateModel fuel camera this)).
Proof.
  intros fuel [o v [ms ma mt mb] [os oa ot ob] vc]. simpl. intros ->.
  split; [|split].
  - unfold _updateModo_transperante. simpl. now rewrite andb_false_r.
  - intros -> ->.
    unfold _updateModo, _updateModo_alambre, _updateModo_transperante,
      _updateModo_sombreado. simpl.
    rewrite neqb_refl. simpl. now rewrite andb_false_r.
  - intros camera b.
    unfold updateModel, _updateRotation, _updateModo, _updateModo_alambre,
      _updateModo_transperante, _updateModo_sombreado, set_transparente.
    destruct vc, ma, oa, os; simpl; goal_traversals;
      rewrite ?andb_false_r; simpl; goal_traversals; reflexivity.
Qed.

Lemma transparency_needs_shading_witness :
  sombreado (_modo (set_transparente true (set_sombreado false (loaded cubeScene))))
  = false /\
  _updateModo_transperante 5
    (set_transparente true (set_sombreado false (loaded cubeScene)))
  = Some (set_transparente true (set_sombreado false (loaded cubeScene))).
Proof.
  split; [reflexivity|].
  exact (proj1 (transparency_needs_shading 5
                  (set_transparente true (set_sombreado false (loaded cubeScene)))
                  eq_refl)).
Defined.

(* ================================================================= *)
(** ** Sequences of calls *)

Lemma step_total (op : Op) (this : Model) :
  exists fuel0 this',
    forall fuel, fuel0 <= fuel -> step fuel op this = Some this'.
Proof.
  destruct op; simpl; try (exists 0; eexists; intros; reflexivity).
  destruct (updateModel_total (height (_object this) + 3) camera this)
    as [this' H]; [unfold enough; lia|].
  exists (height (_object this) + 3), this'. intros fuel Hle.
  now apply updateModel_mono with (fuel := height (_object this) + 3).
Qed.

Lemma run_total (ops : list Op) :
  forall this,
  exists fuel0 this',
    forall fuel, fuel0 <= fuel -> run fuel ops this = Some this'.
Proof.
  induction ops as [|op ops IH]; intro this; simpl.
  - exists 0, this. reflexivity.
  - destruct (step_total op this) as [f1 [s1 H1]].
    destruct (IH s1) as [f2 [s2 H2]].
    exists (Nat.max f1 f2), s2. intros fuel Hle.
    rewrite H1 by lia. simpl. apply H2. lia.
Qed.

Lemma updateModel_fields (fuel : nat) (camera : Camera) (this this' : Model) :
  updateModel fuel camera this = Some this' ->
  _vista this' = _vista this /\ _modo this' = _modo this /\
  _viewChange this' = false /\
  bordes (_modoOldState this') = bordes (_modoOldState this).
Proof.
  intro H. apply updateModel_stages in H. destruct H as [s1 [s2 [H1 [H2 H3]]]].
  apply _updateModo_alambre_fields in H1.
  apply _updateModo_transperante_fields in H2.
  apply _updateModo_sombreado_fields in H3.
  destruct (_updateRotation_fields camera this) as [R1 [R2 [R3 R4]]].
  destruct H1 as [A1 [A2 [A3 A4]]]. destruct H2 as [B1 [B2 [B3 B4]]].
  destruct H3 as [C1 [C2 [C3 C4]]].
  rewrite C1, C2, C3, C4, B1, B2, B3, B4, A1, A2, A3, A4, R1, R2, R3, R4.
  repeat split.
  destruct (_modo this) as [ms ma mt mb], (_modoOldState this) as [os oa ot ob].
  simpl. now destruct ms, os.
Qed.

Lemma run_viewChange (fuel : nat) (ops : list Op) :
  forall this this',
    run fuel ops this = Some this' ->
    _viewChange this' = pendingVista ops (_viewChange this).
Proof.
  induction ops as [|op ops IH]; intros this this' H; simpl in H.
  - now injection H as <-.
  - destruct (step fuel op this) as [s1|] eqn:E; simpl in H; [|discriminate].
    apply IH in H. rewrite H.
    destruct op; simpl in E; try (injection E as <-; reflexivity).
    apply updateModel_fields in E. simpl.
    destruct E as [_ [_ [-> _]]]. reflexivity.
Qed.

Lemma run_bordes (fuel : nat) (ops : list Op) :
  forall this this',
    run fuel ops this = Some this' ->
    bordes (_modo this') = bordes (_modo this) /\
    bordes (_modoOldState this') = bordes (_modoOldState this).
Proof.
  induction ops as [|op ops IH]; intros this this' H; simpl in H.
  - injection H as <-. now split.
  - destruct (step fuel op this) as [s1|] eqn:E; simpl in H; [|discriminate].
    apply IH in H. destruct H as [-> ->].
    destruct op; simpl in E; try (injection E as <-; now split).
    apply updateModel_fields in E.
    destruct E as [_ [-> [_ ->]]]. now split.
Qed.

(** C7. The dirty flag tracks unreconciled vista writes: after any
    sequence of public calls on a new model (which runs to its end with
    enough fuel) [_viewChange] is true exactly when a vista write came
    after the last [updateModel]; the vista setter sets the flag;
    [_updateRotation] clears a set flag, and with the flag unset it returns
    the model unchanged, so that the pass leaves the root's transform
    record as it was. *)
Theorem viewChange_tracks_vista_writes :
  (forall ops,
      exists fuel0 this',
        (forall fuel, fuel0 <= fuel -> run fuel ops newModel = Some this') /\
        _viewChange this' = pendingVista ops false)
  /\ (forall orientation this, _viewChange (set_vista orientation this) = true)
  /\ (forall camera this,
         _viewChange this = true ->
         _viewChange (_updateRotation camera this) = false)
  /\ (forall camera this,
         _viewChange this = false -> _updateRotation camera this = this)
  /\ (forall fuel camera this,
         _viewChange this = false -> enough this fuel ->
         exists this',
           updateModel fuel camera this = Some this' /\
           calls (_object this') = calls (_object this)).
Proof.
  repeat split.
  - intro ops. destruct (run_total ops newModel) as [fuel0 [this' H]].
    exists fuel0, this'. split; [exact H|].
    apply (run_viewChange fuel0 ops newModel). apply H. lia.
  - intros camera this H. unfold _updateRotation. now rewrite H.
  - intros camera this H. unfold _updateRotation. now rewrite H.
  - intros fuel camera this Hv Hf.
    destruct (updateModel_total fuel camera this Hf) as [this' H].
    exists this'. split; [exact H|].
    unfold updateModel, _updateRotation in H. rewrite Hv in H.
    now apply _updateModo_calls in H.
Qed.

Lemma viewChange_tracks_vista_writes_witness :
  exists fuel0 this',
    (forall fuel, fuel0 <= fuel ->
       run fuel [ SetObject cubeScene; SetVista VISTAS.ISOMETRICA;
                  UpdateModel createCamera; SetVista VISTAS.ARRIBA ] newModel
       = Some this') /\
    _viewChange this' = true.
Proof.
  exact (proj1 viewChange_tracks_vista_writes
           [ SetObject cubeScene; SetVista VISTAS.ISOMETRICA;
             UpdateModel createCamera; SetVista VISTAS.ARRIBA ]).
Defined.

(* ================================================================= *)
(** ** The fourth flag *)

Lemma _updateRotation_withBordes (b b' : bool) (camera : Camera) (this : Model) :
  _updateRotation camera (withBordes b b' this)
  = withBordes b b' (_updateRotation camera this).
Proof. unfold _updateRotation. simpl. now destruct (_viewChange this). Qed.

Lemma _updateModo_alambre_withBordes (b b' : bool) (fuel : nat) (this : Model) :
  _updateModo_alambre fuel (withBordes b b' this)
  = option_map (withBordes b b') (_updateModo_alambre fuel this).
Proof.
  unfold _updateModo_alambre. simpl.
  destruct (neqb _ _); [|reflexivity].
  destruct (alambre (_modo this)); goal_traversals; reflexivity.
Qed.

Lemma _updateModo_transperante_withBordes (b b' : bool) (fuel : nat) (this : Model) :
  _updateModo_transperante fuel (withBordes b b' this)
  = option_map (withBordes b b') (_updateModo_transperante fuel this).
Proof.
  unfold _updateModo_transperante. simpl.
  destruct (_ && _); [|reflexivity].
  destruct (transperante (_modo this)); goal_traversals; reflexivity.
Qed.

Lemma _updateModo_sombreado_withBordes (b b' : bool) (fuel : nat) (this : Model) :
  _updateModo_sombreado fuel (withBordes b b' this)
  = option_map (withBordes b b') (_updateModo_sombreado fuel this).
Proof.
  unfold _updateModo_sombreado. simpl.
  destruct (neqb _ _); [|reflexivity].
  destruct (sombreado (_modo this)); simpl; goal_traversals; reflexivity.
Qed.

(** C10. [bordes] is inert. The constructor sets it to false in [_modo]
    and in [_modoOldState]; no sequence of public calls changes either
    copy; and [updateModel] commutes with overwriting the two copies, so
    the scene graph and every other field it produces are the same
    whatever [bordes] holds. *)
Theorem bordes_is_inert :
  bordes (_modo newModel) = false
  /\ bordes (_modoOldState newModel) = false
  /\ (forall ops,
        exists fuel0 this',
          (forall fuel, fuel0 <= fuel -> run fuel ops newModel = Some this') /\
          bordes (_modo this') = false /\
          bordes (_modoOldState this') = false)
  /\ (forall fuel camera this b b',
        updateModel fuel camera (withBordes b b' this)
        = option_map (withBordes b b') (updateModel fuel camera this)).
Proof.
  split; [reflexivity|]. split; [reflexivity|]. split.
  - intro ops. destruct (run_total ops newModel) as [fuel0 [this' H]].
    exists fuel0, this'. split; [exact H|].
    apply (run_bordes fuel0 ops newModel). apply H. lia.
  - intros fuel camera this b b'. unfold updateModel, _updateModo.
    rewrite _updateRotation_withBordes, _updateModo_alambre_withBordes.
    destruct (_updateModo_alambre fuel _) as [s1|]; [|reflexivity]. simpl.
    rewrite _updateModo_transperante_withBordes.
    destruct (_updateModo_transperante fuel s1) as [s2|]; [|reflexivity]. simpl.
    apply _updateModo_sombreado_withBordes.
Qed.

(* ================================================================= *)
(** ** The wireframe toggle *)

Lemma set_alambre_on (fuel : nat) (camera : Camera) (this : Model) :
  enough this fuel -> alambre (_modo this) = false -> settled this ->
  updateModel fuel camera (set_alambre true this)
  = Some (mkModel (withOverlays (_object this)) (_vista this)
                  (_modo (set_alambre true this))
                  (old_alambre true (_modoOldState this)) false).
Proof.
  destruct this as [o v [ms ma mt mb] [os oa ot ob] vc].
  unfold enough, settled. simpl. intros Hf -> [-> [-> [-> Ht]]].
  destruct (traverse_total _ tame_addWireframe fuel o) as [r [Hr _]]; [lia|].
  pose proof (traverse_addWireframe _ _ _ Hr) as ->.
  unfold updateModel, _updateRotation, _updateModo, _updateModo_alambre. simpl.
  rewrite Hr. simpl.
  unfold _updateModo_transperante, _updateModo_sombreado. simpl.
  destruct ms; [specialize (Ht eq_refl); subst ot|]; simpl;
    rewrite ?neqb_refl, ?andb_false_r; simpl; rewrite ?neqb_refl; reflexivity.
Qed.

Lemma set_alambre_off (fuel : nat) (camera : Camera) (this : Model) :
  enough this fuel -> alambre (_modo this) = false -> settled this ->
  wireframeSafe (_object this) = true ->
  updateModel fuel camera
    (set_alambre false
       (mkModel (withOverlays (_object this)) (_vista this)
                (_modo (set_alambre true this))
                (old_alambre true (_modoOldState this)) false))
  = Some this.
Proof.
  destruct this as [o v [ms ma mt mb] [os oa ot ob] vc].
  unfold enough, settled. simpl. intros Hf -> [-> [-> [-> Ht]]] Hs.
  destruct (traverse_total _ tame_addWireframe fuel o) as [r [Hr Hh]]; [lia|].
  pose proof (traverse_addWireframe _ _ _ Hr) as ->.
  destruct (traverse_total _ tame_removeWireframe fuel (withOverlays o))
    as [r [Hr' _]]; [lia|].
  pose proof (traverse_removeWireframe_withOverlays o Hs _ _ Hr') as ->.
  unfold updateModel, _updateRotation, _updateModo, _updateModo_alambre. simpl.
  rewrite Hr'. simpl.
  unfold _updateModo_transperante, _updateModo_sombreado. simpl.
  destruct ms; [specialize (Ht eq_refl); subst ot|]; simpl;
    rewrite ?neqb_refl, ?andb_false_r; simpl; rewrite ?neqb_refl; reflexivity.
Qed.

Lemma _updateModo_alambre_on (fuel : nat) (this : Model) :
  enough this fuel -> alambre (_modoOldState this) = false ->
  _updateModo_alambre fuel (set_alambre true this)
  = Some (withObject (withOverlays (_object this))
                     (old_alambre true (_modoOldState this))
                     (set_alambre true this)).
Proof.
  destruct this as [o v [ms ma mt mb] [os oa ot ob] vc].
  unfold enough. simpl. intros Hf ->.
  destruct (traverse_total _ tame_addWireframe fuel o) as [r [Hr _]]; [lia|].
  pose proof (traverse_addWireframe _ _ _ Hr) as ->.
  unfold _updateModo_alambre. simpl. now rewrite Hr.
Qed.

Lemma _updateModo_alambre_off (fuel : nat) (this : Model) :
  enough this fuel -> alambre (_modoOldState this) = false ->
  wireframeSafe (_object this) = true ->
  _updateModo_alambre fuel
    (set_alambre false
       (withObject (withOverlays (_object this))
                   (old_alambre true (_modoOldState this))
                   (set_alambre true this)))
  = Some (set_alambre false this).
Proof.
  destruct this as [o v [ms ma mt mb] [os oa ot ob] vc].
  unfold enough. simpl. intros Hf -> Hs.
  destruct (traverse_total _ tame_addWireframe fuel o) as [r [Hr Hh]]; [lia|].
  pose proof (traverse_addWireframe _ _ _ Hr) as ->.
  destruct (traverse_total _ tame_removeWireframe fuel (withOverlays o))
    as [r [Hr' _]]; [lia|].
  pose proof (traverse_removeWireframe_withOverlays o Hs _ _ Hr') as ->.
  unfold _updateModo_alambre. simpl. now rewrite Hr'.
Qed.

(** Where the look-up by name finds the overlay. With the wireframe
    snapshot off, the wireframe block of [_updateModo] run after [alambre = true] gives every
    mesh node one more child, the line-segment overlay named [wireframe]
    made from its geometry, and changes nothing else in the scene graph.
    When moreover no mesh is named [wireframe] and no mesh has below it
    another mesh or a node of that name, the block run after
    [alambre = false] gives back the scene graph and the snapshot as they
    were; and for a model with nothing else pending the two whole passes
    of [updateModel] return the model as it was before the toggle. *)
Theorem wireframe_round_trip :
  forall (fuel : nat) (this : Model),
    enough this fuel -> alambre (_modoOldState this) = false ->
    exists on,
      _updateModo_alambre fuel (set_alambre true this) = Some on
      /\ _object on = withOverlays (_object this)
      /\ (wireframeSafe (_object this) = true ->
          _updateModo_alambre fuel (set_alambre false on)
          = Some (set_alambre false this)
          /\ (forall camera,
                 alambre (_modo this) = false -> settled this ->
                 exists on',
                   updateModel fuel camera (set_alambre true this) = Some on'
                   /\ _object on' = withOverlays (_object this)
                   /\ updateModel fuel camera (set_alambre false on')
                      = Some this)).
Proof.
  intros fuel this Hf Ho.
  eexists. split; [now apply _updateModo_alambre_on|].
  split; [reflexivity|].
  intro Hw. split; [now apply _updateModo_alambre_off|].
  intros camera Ha Hs.
  eexists. split; [now apply set_alambre_on|].
  split; [reflexivity|]. now apply set_alambre_off.
Qed.

Lemma wireframe_round_trip_witness :
  (enough (loaded cubeScene) 5 /\
   alambre (_modoOldState (loaded cubeScene)) = false) /\
  exists on,
    _updateModo_alambre 5 (set_alambre true (loaded cubeScene)) = Some on
    /\ _object on = withOverlays cubeScene
    /\ wireframeSafe cubeScene = true
    /\ _updateModo_alambre 5 (set_alambre false on)
       = Some (set_alambre false (loaded cubeScene)).
Proof.
  assert (Hf : enough (loaded cubeScene) 5) by (unfold enough; simpl; lia).
  split; [split; [exact Hf | reflexivity]|].
  destruct (wireframe_round_trip 5 (loaded cubeScene) Hf eq_refl)
    as [on [H1 [H2 H3]]].
  exists on. split; [exact H1|]. split; [exact H2|]. split; [reflexivity|].
  exact (proj1 (H3 eq_refl)).
Defined.

(** A name collision: on a mesh that already has a child named
    [wireframe] the on transition appends the overlay, and the off
    transition takes away the first node of that name, the original child,
    and leaves the overlay. *)
Lemma wireframe_round_trip_counterexample :
  option_map _object
    (run 5 [ SetAlambre true; UpdateModel createCamera;
             SetAlambre false; UpdateModel createCamera ]
         (loaded taggedScene))
  = Some (mkObject3D "Scene" Plain origin []
            [mkObject3D "Cube" (Mesh (BufferGeometry 0) cubeMaterial) origin []
               [wireframeOf (BufferGeometry 0)]])
  /\ mkObject3D "Scene" Plain origin []
       [mkObject3D "Cube" (Mesh (BufferGeometry 0) cubeMaterial) origin []
          [wireframeOf (BufferGeometry 0)]]
     <> _object (loaded taggedScene).
Proof. split; [reflexivity | discriminate]. Qed.

(** C9. The code on a mesh below a mesh. The on transition gives both
    meshes their overlay. In the off transition the look-up by name from
    the outer mesh finds the inner overlay first, which is not a child of
    the outer mesh, so [remove] does nothing there: the inner overlay goes
    and the outer one stays, while the flag and the snapshot both read
    off. A second toggle stacks one more overlay on the outer mesh. *)
Theorem nested_meshes_keep_the_outer_overlay :
  option_map _object
    (run 6 [ SetAlambre true; UpdateModel createCamera ] (loaded nestedScene))
  = Some (withOverlays nestedScene)
  /\ option_map (fun this => (_object this, get_alambre this,
                              alambre (_modoOldState this)))
       (run 6 [ SetAlambre true; UpdateModel createCamera;
                SetAlambre false; UpdateModel createCamera ]
            (loaded nestedScene))
     = Some (mkObject3D "Scene" Plain origin []
               [mkObject3D "Body" (Mesh (BufferGeometry 0) cubeMaterial) origin []
                  [mkObject3D "Lid" (Mesh (BufferGeometry 1) cubeMaterial)
                     origin [] [];
                   wireframeOf (BufferGeometry 0)]],
             false, false)
  /\ option_map _object
       (run 6 [ SetAlambre true; UpdateModel createCamera;
                SetAlambre false; UpdateModel createCamera;
                SetAlambre true; UpdateModel createCamera;
                SetAlambre false; UpdateModel createCamera ]
            (loaded nestedScene))
     = Some (mkObject3D "Scene" Plain origin []
               [mkObject3D "Body" (Mesh (BufferGeometry 0) cubeMaterial) origin []
                  [mkObject3D "Lid" (Mesh (BufferGeometry 1) cubeMaterial)
                     origin [] [];
                   wireframeOf (BufferGeometry 0);
                   wireframeOf (BufferGeometry 0)]]).
Proof. repeat split. Qed.

(* ================================================================= *)
(** ** Where the code departs from its documentation *)

Lemma singleMaterials_paint (t : bool) (op : float) (o : Object3D) :
  singleMaterials (paint t op o)
  = map (fun m => mkMaterial (color m) t op) (singleMaterials o).
Proof.
  induction o as [n k p c cs IH] using Object3D_tree_ind. simpl.
  rewrite map_app. f_equal; [now destruct k as [|g [m|ms at' ao]|g m]|].
  induction IH as [|a l Ha _ IHl]; simpl; [reflexivity|].
  now rewrite map_app, Ha, IHl.
Qed.


(** Whenever a pass turns shading back on, the shading block runs last and
    assigns the material of every single-material mesh
    [transparent = false], [opacity = 1], while the transparency snapshot
    is left equal to the transparency flag: a transparency that is on is
    recorded as applied and is not on the materials. *)
Lemma shading_on_has_the_last_word (fuel : nat) (camera : Camera) (this : Model) :
  enough this fuel ->
  sombreado (_modo this) = true -> sombreado (_modoOldState this) = false ->
  exists this',
    updateModel fuel camera this = Some this' /\
    Forall (fun m => transparent m = false /\ opacity m = 1%float)
           (singleMaterials (_object this')) /\
    transperante (_modoOldState this') = transperante (_modo this).
Proof.
  intros Hf Hm Ho.
  destruct (updateModel_total fuel camera this Hf) as [this' H].
  exists this'. split; [exact H|].
  apply updateModel_stages in H. destruct H as [s1 [s2 [H1 [H2 H3]]]].
  apply _updateModo_alambre_fields in H1.
  apply _updateModo_transperante_fields in H2.
  destruct (_updateRotation_fields camera this) as [_ [R2 [_ R4]]].
  destruct H1 as [_ [A2 [_ A4]]]. destruct H2 as [_ [B2 [_ B4]]].
  rewrite R2 in A2. rewrite A2 in B2, B4. rewrite Hm in B4.
  rewrite R2, R4 in A4. rewrite A4 in B4.
  unfold _updateModo_sombreado in H3.
  rewrite B2, B4, Hm in H3. simpl in H3. rewrite Ho in H3. simpl in H3.
  destruct (traverse _ _ _) as [r|] eqn:E; simpl in H3; [|discriminate].
  injection H3 as <-. simpl.
  apply traverse_setMaterial in E. subst r.
  split; [|reflexivity].
  rewrite singleMaterials_paint. apply Forall_forall.
  intros m Hin. apply in_map_iff in Hin. destruct Hin as [m0 [<- _]].
  now split.
Qed.

(** C1. The code at the claim's own scenario, on a scene with one mesh:
    after shading was turned off and reconciled (materials transparent
    with opacity 0, transparency snapshot reset to false), setting
    [transparente = true] and [sombreado = true] and running one pass ends
    with the mesh material opaque with opacity 1, not transparent with
    opacity 0.4, and with the snapshot recording transparency as applied. *)
Theorem transparency_overwritten_when_shading_returns :
  option_map (fun this => (meshMaterials (_object this),
                           transperante (_modoOldState this)))
    (run 5 [ SetSombreado false; UpdateModel createCamera ] (loaded cubeScene))
  = Some ([mkMaterial 0xCCCCCC%N true 0], false)
  /\ option_map (fun this => (meshMaterials (_object this),
                              transperante (_modo this),
                              transperante (_modoOldState this)))
       (run 5 [ SetSombreado false; UpdateModel createCamera;
                SetTransparente true; SetSombreado true;
                UpdateModel createCamera ] (loaded cubeScene))
     = Some ([mkMaterial 0xCCCCCC%N false 1], true, true).
Proof. split; reflexivity. Qed.

(** C2. The code at the vista ISOMETRICA (30, 30, 0): the angles handed
    to [rotateOnAxis] are the stored degree values 30, 30 and 0, while the
    conversion the class defines gives a different number for 30 degrees
    (about 0.5236). [_degreesToRadians] is never called. *)
Theorem vista_angles_are_not_converted :
  calls (_object (_updateRotation createCamera
                    (set_vista VISTAS.ISOMETRICA (loaded cubeScene))))
  = [ LookAt (mkVector3 100 100 100);
      RotateOnAxis (mkVector3 1 0 0) 30;
      RotateOnAxis (mkVector3 0 1 0) 30;
      RotateOnAxis (mkVector3 0 0 1) 0 ]
  /\ PrimFloat.eqb (_degreesToRadians 30) 30 = false
  /\ PrimFloat.ltb 0.5235 (_degreesToRadians 30) = true
  /\ PrimFloat.ltb (_degreesToRadians 30) 0.5236 = true.
Proof. repeat split. Qed.

(** C3. The code on a scene with one mesh, along two sequences of calls.
    Both end with the same scene graph, the mesh material opaque with
    opacity 1 and no overlay; the transparency snapshot is true after the
    first and false after the second. After the first the snapshot
    therefore records a transparency that is not on the materials. *)
Theorem snapshot_not_what_the_scene_shows :
  option_map (fun this => (_object this, transperante (_modoOldState this)))
    (run 5 [ SetSombreado false; UpdateModel createCamera;
             SetTransparente true; SetSombreado true;
             UpdateModel createCamera ] (loaded cubeScene))
  = Some (cubeScene, true)
  /\ option_map (fun this => (_object this, transperante (_modoOldState this)))
       (run 5 [ SetSombreado false; UpdateModel createCamera;
                SetSombreado true; UpdateModel createCamera ] (loaded cubeScene))
     = Some (cubeScene, false)
  /\ meshMaterials cubeScene = [mkMaterial 0xCCCCCC%N false 1].
Proof. repeat split. Qed.

(* ================================================================= *)
(** ** Further properties of [src/modelClass.js] *)

(** *** Traversals with enough fuel *)

Lemma traverse_setMaterial_run (t : bool) (op : float) (fuel : nat) (o : Object3D) :
  height o < fuel -> traverse fuel (setMaterial t op) o = Some (paint t op o).
Proof.
  intro H. destruct (traverse_total _ (tame_setMaterial t op) fuel o H) as [r [Hr _]].
  pose proof (traverse_setMaterial _ _ _ _ _ Hr) as E. now subst r.
Qed.

Lemma traverse_addWireframe_run (fuel : nat) (o : Object3D) :
  height o < fuel ->
  traverse fuel addWireframe o = Some (withOverlays o) /\
  height (withOverlays o) <= S (height o).
Proof.
  intro H. destruct (traverse_total _ tame_addWireframe fuel o H) as [r [Hr Hh]].
  pose proof (traverse_addWireframe _ _ _ Hr) as E. subst r. now split.
Qed.

Lemma height_paint (t : bool) (op : float) (o : Object3D) :
  height (paint t op o) = height o.
Proof.
  induction o as [n k p c cs IH] using Object3D_tree_ind. simpl.
  do 2 f_equal. rewrite map_map. apply map_ext_in.
  intros a Ha. rewrite Forall_forall in IH. auto.
Qed.


Lemma paint_withOverlays (t : bool) (op : float) (o : Object3D) :
  paint t op (withOverlays o) = withOverlays (paint t op o).
Proof.
  induction o as [n k p c cs IH] using Object3D_tree_ind. simpl.
  f_equal. rewrite map_app, !map_map. f_equal.
  - apply map_ext_in. intros a Ha. rewrite Forall_forall in IH. auto.
  - now destruct k.
Qed.

Lemma run_app (fuel : nat) (ops ops' : list Op) (this : Model) :
  run fuel (ops ++ ops') this = (this' <- run fuel ops this ;; run fuel ops' this').
Proof.
  revert this. induction ops as [|op ops IH]; intro this; simpl; [reflexivity|].
  destruct (step fuel op this) as [s1|]; simpl; [apply IH | reflexivity].
Qed.

(** *** Setter calls and passes *)

Lemma run_setters (fuel : nat) (ops : list Op) :
  forallb isSetter ops = true ->
  forall this, run fuel ops this = Some (requested ops this).
Proof.
  induction ops as [|op ops IH]; intros H this.
  - now destruct this as [o v [ms ma mt mb] old vc].
  - simpl in H. apply andb_true_iff in H. destruct H as [Hop Hops].
    destruct op; try discriminate; simpl; now rewrite (IH Hops).
Qed.

Lemma settled_set_object (o : Object3D) (this : Model) :
  settled this -> settled (set_object o this).
Proof. intro H. exact H. Qed.

Lemma run_requests (fuel : nat) (ops : list Op) :
  forall this this',
    run fuel ops this = Some this' ->
    _vista this' = lastVista ops (_vista this) /\
    alambre (_modo this') = lastAlambre ops (alambre (_modo this)) /\
    transperante (_modo this') = lastTransparente ops (transperante (_modo this)) /\
    sombreado (_modo this') = lastSombreado ops (sombreado (_modo this)).
Proof.
  induction ops as [|op ops IH]; intros this this' H; simpl in H.
  - injection H as <-. repeat split.
  - destruct (step fuel op this) as [s1|] eqn:E; simpl in H; [|discriminate].
    apply IH in H. destruct H as [-> [-> [-> ->]]].
    destruct op; simpl in E; try (injection E as <-; repeat split).
    apply updateModel_fields in E. destruct E as [-> [-> _]]. repeat split.
Qed.

(** X1. A burst of setter calls (vista and the three mode flags) needs
    no traversal and touches neither the scene graph nor the last-applied
    snapshot: it returns the model with each requested field at the value
    written last, and the dirty flag set exactly when a vista was
    written. *)
Theorem setters_only_record :
  forall (ops : list Op) (fuel : nat) (this : Model),
    forallb isSetter ops = true ->
    exists this',
      run fuel ops this = Some this'
      /\ _object this' = _object this
      /\ _modoOldState this' = _modoOldState this
      /\ _vista this' = lastVista ops (_vista this)
      /\ get_alambre this' = lastAlambre ops (get_alambre this)
      /\ get_transparente this' = lastTransparente ops (get_transparente this)
      /\ get_sombreado this' = lastSombreado ops (get_sombreado this)
      /\ _viewChange this' = pendingVista ops (_viewChange this).
Proof.
  intros ops fuel this H. exists (requested ops this).
  split; [now apply run_setters|]. repeat split.
Qed.

Lemma setters_only_record_witness :
  forallb isSetter
    [ SetAlambre true; SetVista VISTAS.ARRIBA; SetAlambre false;
      SetTransparente true ] = true /\
  exists this',
    run 0 [ SetAlambre true; SetVista VISTAS.ARRIBA; SetAlambre false;
            SetTransparente true ] (loaded cubeScene) = Some this'
    /\ _object this' = cubeScene
    /\ get_alambre this' = false
    /\ get_transparente this' = true
    /\ _viewChange this' = true.
Proof.
  split; [reflexivity|].
  destruct (setters_only_record
              [ SetAlambre true; SetVista VISTAS.ARRIBA; SetAlambre false;
                SetTransparente true ] 0 (loaded cubeScene) eq_refl)
    as [this' [H [Ho [_ [_ [Ha [Ht [_ Hv]]]]]]]].
  exists this'. repeat split; assumption.
Defined.

(** X2. A pass sees only the net effect of the setter calls made since
    the last pass: running the calls and then [updateModel] is running
    [updateModel] on the model with the last written values. When nothing
    was pending before and every flag is written back to the value it had
    (and no vista is written), the pass changes nothing: intermediate
    values never reach the scene graph. *)
Theorem pass_sees_net_requests :
  forall (ops : list Op) (fuel : nat) (camera : Camera) (this : Model),
    forallb isSetter ops = true ->
    run fuel (ops ++ [UpdateModel camera]) this
    = updateModel fuel camera (requested ops this)
    /\ (settled this -> requested ops this = this ->
        run fuel (ops ++ [UpdateModel camera]) this = Some this).
Proof.
  intros ops fuel camera this H.
  assert (E : run fuel (ops ++ [UpdateModel camera]) this
              = updateModel fuel camera (requested ops this)).
  { rewrite run_app, (run_setters fuel ops H). simpl.
    now destruct (updateModel fuel camera (requested ops this)). }
  split; [exact E|].
  intros Hs Hr. rewrite E, Hr. now apply settled_updateModel.
Qed.

Lemma pass_sees_net_requests_witness :
  (forallb isSetter [ SetAlambre true; SetSombreado false;
                     SetSombreado true; SetAlambre false ] = true /\
   settled (loaded cubeScene) /\
   requested [ SetAlambre true; SetSombreado false;
               SetSombreado true; SetAlambre false ] (loaded cubeScene)
   = loaded cubeScene) /\
  run 0 ([ SetAlambre true; SetSombreado false;
           SetSombreado true; SetAlambre false ] ++ [UpdateModel createCamera])
      (loaded cubeScene)
  = Some (loaded cubeScene).
Proof.
  assert (Hs : settled (loaded cubeScene))
    by (unfold settled; simpl; repeat split; reflexivity).
  split; [split; [reflexivity | split; [exact Hs | reflexivity]]|].
  exact (proj2 (pass_sees_net_requests
                  [ SetAlambre true; SetSombreado false;
                    SetSombreado true; SetAlambre false ]
                  0 createCamera (loaded cubeScene) eq_refl) Hs eq_refl).
Defined.

(** X3. Passes never alter what was requested: after any sequence of
    public calls (setters, object assignments and passes, which runs to
    its end with enough fuel) the vista and the three mode getters hold
    the values written last, or the initial ones where nothing was
    written. *)
Theorem requests_survive_passes :
  forall (ops : list Op) (this : Model),
    exists fuel0 this',
      (forall fuel, fuel0 <= fuel -> run fuel ops this = Some this')
      /\ _vista this' = lastVista ops (_vista this)
      /\ get_alambre this' = lastAlambre ops (get_alambre this)
      /\ get_transparente this' = lastTransparente ops (get_transparente this)
      /\ get_sombreado this' = lastSombreado ops (get_sombreado this).
Proof.
  intros ops this. destruct (run_total ops this) as [fuel0 [this' H]].
  exists fuel0, this'. split; [exact H|].
  apply (run_requests fuel0 ops this). apply H. lia.
Qed.

(** X4. [updateModel] terminates on every model, although the wireframe
    callback adds children to the nodes the traversal is visiting: with
    fuel above the height of the scene graph plus two the pass returns,
    and more fuel gives the same model. *)
Theorem updateModel_terminates :
  forall (fuel : nat) (camera : Camera) (this : Model),
    enough this fuel ->
    exists this',
      forall fuel', fuel <= fuel' -> updateModel fuel' camera this = Some this'.
Proof.
  intros fuel camera this H.
  destruct (updateModel_total fuel camera this H) as [this' E].
  exists this'. intros fuel' Hle. now apply updateModel_mono with (fuel := fuel).
Qed.

Lemma updateModel_terminates_witness :
  enough (set_alambre true (loaded nestedScene)) 6 /\
  exists this',
    forall fuel', 6 <= fuel' ->
      updateModel fuel' createCamera (set_alambre true (loaded nestedScene))
      = Some this'.
Proof.
  assert (H : enough (set_alambre true (loaded nestedScene)) 6)
    by (unfold enough; simpl; lia).
  split; [exact H|].
  exact (updateModel_terminates 6 createCamera _ H).
Defined.

(** X10. Assigning an object marks nothing dirty. After a pass, the next
    pass over the model with a newly assigned object returns it as
    assigned: the wireframe, transparency, shading and vista that were
    applied to the former object are not applied to the new one. *)
Theorem set_object_marks_nothing_dirty :
  forall (fuel : nat) (camera : Camera) (this : Model),
    enough this fuel ->
    exists this',
      updateModel fuel camera this = Some this' /\
      forall obj fuel' camera',
        updateModel fuel' camera' (set_object obj this')
        = Some (set_object obj this').
Proof.
  intros fuel camera this H.
  destruct (updateModel_total fuel camera this H) as [this' E].
  exists this'. split; [exact E|]. intros obj fuel' camera'.
  apply settled_updateModel, settled_set_object.
  now apply updateModel_settled in E.
Qed.

Lemma set_object_marks_nothing_dirty_witness :
  enough (set_vista VISTAS.ISOMETRICA (set_alambre true newModel)) 4 /\
  exists this',
    updateModel 4 createCamera
      (set_vista VISTAS.ISOMETRICA (set_alambre true newModel)) = Some this' /\
    forall obj fuel' camera',
      updateModel fuel' camera' (set_object obj this')
      = Some (set_object obj this').
Proof.
  assert (H : enough (set_vista VISTAS.ISOMETRICA (set_alambre true newModel)) 4)
    by (unfold enough; simpl; lia).
  split; [exact H|].
  exact (set_object_marks_nothing_dirty 4 createCamera _ H).
Defined.

(** *** The material transitions *)

(** Unfolds a pass down to its traversals. *)
Ltac unfold_pass :=
  unfold updateModel, _updateRotation, _updateModo, _updateModo_alambre,
    _updateModo_transperante, _updateModo_sombreado; simpl;
  rewrite ?neqb_refl; simpl.












(** *** Removing an overlay that is not there *)

Lemma mapM_same {A : Type} (f : A -> option A) (l : list A) :
  (forall a, In a l -> f a = Some a) -> mapM f l = Some l.
Proof.
  induction l as [|a l IH]; simpl; intro H; [reflexivity|].
  rewrite (H a) by now left. simpl. rewrite IH; [reflexivity|].
  intros; apply H; now right.
Qed.

Lemma noWireframeNode_getObjectByName (o : Object3D) :
  noWireframeNode o = true -> getObjectByName "wireframe" o = None.
Proof.
  induction o as [n k p c cs IH] using Object3D_tree_ind. simpl. intro H.
  apply andb_true_iff in H. destruct H as [Hn Hcs].
  apply negb_true_iff in Hn. rewrite Hn. apply firstOf_none.
  apply Forall_forall. intros a Ha.
  rewrite Forall_forall in IH. rewrite forallb_forall in Hcs. auto.
Qed.

Lemma noWireframeNode_traverse (fuel : nat) :
  forall o, noWireframeNode o = true -> height o < fuel ->
            traverse fuel removeWireframe o = Some o.
Proof.
  induction fuel as [|fuel IH]; intros o Hn Hh; [lia|].
  assert (E : removeWireframe o = o).
  { unfold removeWireframe. destruct (isMesh o); [|reflexivity].
    now rewrite noWireframeNode_getObjectByName. }
  simpl. rewrite E. rewrite mapM_same.
  - now destruct o.
  - intros a Ha. apply IH.
    + destruct o as [n k p c cs]. simpl in Hn, Ha.
      apply andb_true_iff in Hn. destruct Hn as [_ Hcs].
      rewrite forallb_forall in Hcs. auto.
    + pose proof (height_child o a Ha). lia.
Qed.

(** X9. Turning the wireframe off on a scene graph that holds no node
    named [wireframe] (a newly assigned object, say, while the snapshot
    still records the wireframe as on) removes nothing and fails nowhere:
    the look-up finds nothing, [remove] of nothing is a no-op on every
    mesh, and the block only records the wireframe as off. *)
Theorem wireframe_off_without_overlay :
  forall (fuel : nat) (this : Model),
    enough this fuel ->
    noWireframeNode (_object this) = true ->
    alambre (_modoOldState this) = true ->
    exists this',
      _updateModo_alambre fuel (set_alambre false this) = Some this'
      /\ _object this' = _object this
      /\ alambre (_modoOldState this') = false.
Proof.
  intros fuel [o v [ms ma mt mb] [os oa ot ob] vc].
  unfold enough. simpl. intros Hf Hn ->.
  unfold _updateModo_alambre. simpl.
  rewrite noWireframeNode_traverse by (assumption || lia).
  simpl. eexists. repeat split.
Qed.

Lemma wireframe_off_without_overlay_witness :
  (enough (set_object nestedScene
             (mkModel cubeScene VISTAS.FRONTAL
                      (mkModo true true false false)
                      (mkModo true true false false) false)) 6 /\
   noWireframeNode nestedScene = true) /\
  exists this',
    _updateModo_alambre 6
      (set_alambre false
         (set_object nestedScene
            (mkModel cubeScene VISTAS.FRONTAL
                     (mkModo true true false false)
                     (mkModo true true false false) false)))
    = Some this'
    /\ _object this' = nestedScene.
Proof.
  assert (Hf : enough (set_object nestedScene
                         (mkModel cubeScene VISTAS.FRONTAL
                                  (mkModo true true false false)
                                  (mkModo true true false false) false)) 6)
    by (unfold enough; simpl; lia).
  split; [split; [exact Hf | reflexivity]|].
  destruct (wireframe_off_without_overlay 6 _ Hf eq_refl eq_refl)
    as [this' [H1 [H2 _]]].
  exists this'. split; [exact H1 | exact H2].
Defined.

Lemma forallb_map_ext {A : Type} (f h : A -> bool) (g : A -> A) (l : list A) :
  (forall a, In a l -> f (g a) = h a) ->
  forallb f (map g l) = forallb h l.
Proof.
  induction l as [|a l IH]; simpl; intro H; [reflexivity|].
  rewrite (H a) by now left. f_equal. apply IH. intros; apply H; now right.
Qed.

Lemma bare_paint (t : bool) (op : float) (o : Object3D) :
  bare (paint t op o) = bare o.
Proof.
  induction o as [n k p c cs IH] using Object3D_tree_ind. simpl.
  f_equal; [f_equal; now destruct k|].
  apply forallb_map_ext. rewrite Forall_forall in IH. exact IH.
Qed.

Lemma wireframeSafe_paint (t : bool) (op : float) (o : Object3D) :
  wireframeSafe (paint t op o) = wireframeSafe o.
Proof.
  induction o as [n k p c cs IH] using Object3D_tree_ind. simpl.
  destruct k; simpl.
  - apply forallb_map_ext. rewrite Forall_forall in IH. exact IH.
  - f_equal. apply forallb_map_ext. intros a _. apply bare_paint.
  - apply forallb_map_ext. rewrite Forall_forall in IH. exact IH.
Qed.

(** X12. On a scene graph where the overlay look-up is safe, a
    transparency transition between the wireframe's on and off
    transitions does not disturb the removal: with shading on and nothing
    pending, wireframe on, transparency on, wireframe off, each followed by
    a pass, ends in the model that turning transparency on alone gives. *)
Theorem wireframe_round_trip_across_transparency :
  forall (fuel : nat) (camera : Camera) (this : Model),
    enough this fuel -> settled this ->
    wireframeSafe (_object this) = true ->
    sombreado (_modo this) = true ->
    alambre (_modo this) = false -> transperante (_modo this) = false ->
    run fuel [ SetAlambre true; UpdateModel camera;
               SetTransparente true; UpdateModel camera;
               SetAlambre false; UpdateModel camera ] this
    = Some (set_transparente true
              (mkModel (paint true 0.4 (_object this)) (_vista this) (_modo this)
                       (old_transperante true (_modoOldState this)) false))
    /\ run fuel [ SetTransparente true; UpdateModel camera ] this
       = Some (set_transparente true
                 (mkModel (paint true 0.4 (_object this)) (_vista this) (_modo this)
                          (old_transperante true (_modoOldState this)) false)).
Proof.
  intros fuel camera [o v [ms ma mt mb] [os oa ot ob] vc].
  unfold enough, settled. simpl. intros Hf [-> [-> [-> Ht]]] Hw Hm -> ->.
  subst ms. specialize (Ht eq_refl). subst ot.
  destruct (traverse_addWireframe_run fuel o) as [Ha Hh]; [lia|].
  assert (Hp : traverse fuel (setMaterial true 0.4) (withOverlays o)
               = Some (withOverlays (paint true 0.4 o))).
  { rewrite traverse_setMaterial_run by lia. now rewrite paint_withOverlays. }
  assert (Hq : traverse fuel (setMaterial true 0.4) o = Some (paint true 0.4 o))
    by (apply traverse_setMaterial_run; lia).
  assert (Hr : traverse fuel removeWireframe (withOverlays (paint true 0.4 o))
               = Some (paint true 0.4 o)).
  { destruct (traverse_total _ tame_removeWireframe fuel
                (withOverlays (paint true 0.4 o))) as [r [Hr _]].
    - rewrite <- paint_withOverlays, height_paint. lia.
    - rewrite Hr. f_equal.
      apply (traverse_removeWireframe_withOverlays (paint true 0.4 o))
        with (fuel := fuel); [|exact Hr].
      now rewrite wireframeSafe_paint. }
  unfold run, step. simpl. split.
  - unfold_pass. rewrite Ha. simpl. unfold_pass. rewrite Hp. simpl.
    unfold_pass. rewrite Hr. reflexivity.
  - unfold_pass. rewrite Hq. reflexivity.
Qed.

Lemma wireframe_round_trip_across_transparency_witness :
  (enough (loaded cubeScene) 5 /\ settled (loaded cubeScene) /\
   wireframeSafe (_object (loaded cubeScene)) = true /\
   sombreado (_modo (loaded cubeScene)) = true /\
   alambre (_modo (loaded cubeScene)) = false /\
   transperante (_modo (loaded cubeScene)) = false) /\
  run 5 [ SetAlambre true; UpdateModel createCamera;
          SetTransparente true; UpdateModel createCamera;
          SetAlambre false; UpdateModel createCamera ] (loaded cubeScene)
  = run 5 [ SetTransparente true; UpdateModel createCamera ] (loaded cubeScene).
Proof.
  assert (Hf : enough (loaded cubeScene) 5) by (unfold enough; simpl; lia).
  assert (Hs : settled (loaded cubeScene))
    by (unfold settled; simpl; repeat split; reflexivity).
  split; [split; [exact Hf | split; [exact Hs | repeat split]]|].
  destruct (wireframe_round_trip_across_transparency 5 createCamera
              (loaded cubeScene) Hf Hs eq_refl eq_refl eq_refl eq_refl)
    as [H1 H2].
  rewrite H1, H2. reflexivity.
Defined.

(** *** The degree conversion *)

Lemma SFmul_opp_l (prec emax : BinNums.Z) (a b : spec_float) :
  SFmul prec emax (SFopp a) b = SFopp (SFmul prec emax a b).
Proof.
  destruct a as [sa|sa| |sa ma ea], b as [sb|sb| |sb mb eb]; simpl;
    try reflexivity; try (now destruct sa, sb).
  unfold binary_round_aux.
  replace (xorb (negb sa) sb) with (negb (xorb sa sb)) by now destruct sa, sb.
  destruct (shr_fexp _ _ _ _ _) as [mrs' e'].
  destruct (shr_fexp _ _ _ _ _) as [mrs'' e''].
  destruct (shr_m mrs''); try reflexivity.
  match goal with |- context [if ?c then _ else _] => now destruct c end.
Qed.

(** X11. [_degreesToRadians] is odd on every JavaScript number: the
    radians of the negated degrees are the negated radians, infinities
    and NaN included. It keeps NaN, both infinities and both zeros. *)
Theorem _degreesToRadians_odd :
  (forall degrees : float,
      _degreesToRadians (- degrees) = (- _degreesToRadians degrees)%float)
  /\ _degreesToRadians nan = nan
  /\ _degreesToRadians infinity = infinity
  /\ _degreesToRadians neg_infinity = neg_infinity
  /\ _degreesToRadians zero = zero
  /\ _degreesToRadians neg_zero = neg_zero.
Proof.
  split; [|repeat split].
  intro degrees. unfold _degreesToRadians.
  apply Prim2SF_inj.
  rewrite mul_spec, !opp_spec, mul_spec. apply SFmul_opp_l.
Qed.
